(** * pg_activity: the data-acquisition core ([pgactivity/data.py])

    A shallow embedding of version resolution, query-bracket selection,
    connection handling and rate derivation, together with the properties
    stated about them.

    Conventions of the embedding:
    - Python [str] is [string]; Python [int] is [Z]; a Python [float] is
      the rational [Q] it denotes, and every float operation rounds its
      exact result to the nearest binary64 number ([round53]);
    - a raised exception is the [Raise] case of [Result];
    - the database client ([psycopg3]) and the terminal ([getpass]) are
      oracles stored in a [World]; every call is recorded in its log;
    - instances of the frozen class [Data] live in an object store and are
      passed around by reference. *)

From Stdlib Require Import ZArith QArith Qround Qabs Qpower Lqa Ascii String.
From stdpp Require Import base option strings list gmap.

Local Open Scope string_scope.
Local Open Scope Z_scope.

(** ** Python values and exceptions *)

(** The classes of [psycopg3.errors] the module imports.  [InvalidPassword]
    derives from [OperationalError]; all derive from [Error]. *)
Inductive psy_class : Type :=
| Error
| InterfaceError
| OperationalError
| InvalidPassword.

Inductive exn : Type :=
| PsyError (cls : psy_class) (msg : string)
| Exception (msg : string)
| SystemExit (msg : string)
| ZeroDivisionError
| AssertionError
| ValueError
| TypeError
| IndexError
| UnboundLocalError
| ReferenceError.

Inductive Result (A : Type) : Type :=
| Ok (a : A)
| Raise (e : exn).

Arguments Ok {A} a.
Arguments Raise {A} e.

Definition rbind {A B : Type} (r : Result A) (f : A -> Result B) : Result B :=
  match r with
  | Ok a => f a
  | Raise e => Raise e
  end.

Declare Scope result_scope.
Delimit Scope result_scope with result.
Notation "x <- r ;; k" := (rbind r (fun x => k))
  (at level 100, r at next level, right associativity) : result_scope.

(** [isinstance(err, cls)] on the imported classes. *)
Definition isinstance (c cls : psy_class) : bool :=
  match cls, c with
  | Error, _ => true
  | InterfaceError, InterfaceError => true
  | OperationalError, (OperationalError | InvalidPassword) => true
  | InvalidPassword, InvalidPassword => true
  | _, _ => false
  end.

(** ** Strings *)

(** Membership of a character class [[lo-hi]]. *)
Definition in_range (lo hi a : ascii) : bool :=
  ((N_of_ascii lo <=? N_of_ascii a) && (N_of_ascii a <=? N_of_ascii hi))%N.

Fixpoint all_in_range (lo hi : ascii) (s : string) : bool :=
  match s with
  | EmptyString => true
  | String a s' => in_range lo hi a && all_in_range lo hi s'
  end.

Definition is_digit (a : ascii) : bool := in_range "0" "9" a.

Definition digit_val (a : ascii) : Z := Z.of_N (N_of_ascii a) - 48.

Definition all_digits (s : string) : bool := all_in_range "0" "9" s.

Fixpoint int_acc (s : string) (acc : Z) : Z :=
  match s with
  | EmptyString => acc
  | String a s' => int_acc s' (10 * acc + digit_val a)
  end.

(** [int(s)] on a [str].  Only plain decimal numerals are accepted here
    (the module only ever converts text captured by [[0-9]+]); anything else
    raises [ValueError].  Integers are unbounded: no limit on the number of
    digits is modelled. *)
Definition py_int (s : string) : Result Z :=
  match s with
  | EmptyString => Raise ValueError
  | _ => if all_digits s then Ok (int_acc s 0) else Raise ValueError
  end.

(** [s[len(p):]] when [s.startswith(p)]. *)
Fixpoint strip_prefix (p s : string) : option string :=
  match p with
  | EmptyString => Some s
  | String a p' =>
      match s with
      | String b s' => if Ascii.eqb a b then strip_prefix p' s' else None
      | EmptyString => None
      end
  end.

(** [s.replace(old, new)]: non-overlapping occurrences, left to right.
    [old] is never empty in this module. *)
Fixpoint str_replace (old new s : string) (fuel : nat) : string :=
  match fuel with
  | O => s
  | S fuel' =>
      match strip_prefix old s with
      | Some rest => new +:+ str_replace old new rest fuel'
      | None =>
          match s with
          | EmptyString => EmptyString
          | String a s' => String a (str_replace old new s' fuel')
          end
      end
  end.

Definition replace (old new s : string) : string :=
  str_replace old new s (S (String.length s)).

(** ** Regular expressions: the fragment of [re] the module uses

    [re.match] is anchored at the beginning of the text and succeeds on a
    matching prefix.  The engine is a backtracking matcher in
    continuation-passing style: alternatives are tried left to right,
    [?] and [+] are greedy, and a capture made on an abandoned path is
    forgotten. *)

Inductive regex : Type :=
| Lit (l : string)              (* literal text *)
| Cls (lo hi : ascii)           (* [lo-hi]+ : one or more from a range *)
| Seq (r1 r2 : regex)           (* r1 r2 *)
| Alt (r1 r2 : regex)           (* r1|r2 *)
| Opt (r : regex)               (* r? *)
| Grp (n : nat) (r : regex)     (* capturing group number n *)
| NGrp (r : regex).             (* (?:r) *)

Abbreviation captures := (gmap nat string).

Section Engine.
Context {R : Type}.

(** Greedy [[lo-hi]*]: the longest run first, then shorter ones. *)
Fixpoint many (lo hi : ascii) (s : string)
    (k : string -> string -> option R) : option R :=
  match s with
  | String a s' =>
      if in_range lo hi a then
        match many lo hi s' (fun w rest => k (String a w) rest) with
        | Some x => Some x
        | None => k EmptyString s
        end
      else k EmptyString s
  | EmptyString => k EmptyString s
  end.

(** [run r s caps k]: match [r] at the head of [s]; the continuation gets
    the matched text, the remaining text and the groups captured so
    far. *)
Fixpoint run (r : regex) (s : string) (caps : captures)
    (k : string -> string -> captures -> option R) : option R :=
  match r with
  | Lit l =>
      match strip_prefix l s with
      | Some rest => k l rest caps
      | None => None
      end
  | Cls lo hi =>
      match s with
      | String a s' =>
          if in_range lo hi a
          then many lo hi s' (fun w rest => k (String a w) rest caps)
          else None
      | EmptyString => None
      end
  | Seq r1 r2 =>
      run r1 s caps (fun w1 s1 c1 =>
        run r2 s1 c1 (fun w2 s2 c2 => k (w1 +:+ w2) s2 c2))
  | Alt r1 r2 =>
      match run r1 s caps k with
      | Some x => Some x
      | None => run r2 s caps k
      end
  | Opt r1 =>
      match run r1 s caps k with
      | Some x => Some x
      | None => k EmptyString s caps
      end
  | Grp n r1 => run r1 s caps (fun w rest c => k w rest (<[n := w]> c))
  | NGrp r1 => run r1 s caps k
  end.
End Engine.

(** A match object: [group(0)] and the numbered groups. *)
Record Match : Type := { group0 : string; groups : captures }.

Definition group (m : Match) (n : nat) : option string := groups m !! n.

Definition re_match (r : regex) (text : string) : option Match :=
  run r text ∅ (fun w _ c => Some {| group0 := w; groups := c |}).

(** Using a group that took no part in the match where a [str] is needed
    ([int(None)], [None + "0"]) raises [TypeError]. *)
Definition as_str (o : option string) : Result string :=
  match o with
  | Some s => Ok s
  | None => Raise TypeError
  end.

Declare Scope regex_scope.
Delimit Scope regex_scope with re.
Infix ";;;" := Seq (at level 60, right associativity) : regex_scope.
Infix "|+|" := Alt (at level 65, right associativity) : regex_scope.

Definition digits : regex := Cls "0" "9".

(** [^(PostgreSQL|EnterpriseDB) ([0-9]+)\.([0-9]+)(?:\.([0-9]+))?]
    (the leading [^] holds trivially under [re.match]). *)
Definition release_pattern : regex :=
  (Grp 1 (Lit "PostgreSQL" |+| Lit "EnterpriseDB") ;;; Lit " " ;;;
   Grp 2 digits ;;; Lit "." ;;; Grp 3 digits ;;;
   Opt (NGrp (Lit "." ;;; Grp 4 digits)))%re.

(** [^(PostgreSQL|EnterpriseDB) ([0-9]+)(?:\.([0-9]+))?(devel|beta[0-9]+|rc[0-9]+)] *)
Definition dev_pattern : regex :=
  (Grp 1 (Lit "PostgreSQL" |+| Lit "EnterpriseDB") ;;; Lit " " ;;;
   Grp 2 digits ;;; Opt (NGrp (Lit "." ;;; Grp 3 digits)) ;;;
   Grp 4 (Lit "devel" |+| (Lit "beta" ;;; digits) |+| (Lit "rc" ;;; digits)))%re.

(** ** Version resolution *)

Local Open Scope result_scope.

(** [rmatch += "0"] when [int(g) < 10], then [rmatch += g]. *)
Definition append_padded (rmatch g : string) : Result string :=
  n <- py_int g ;;
  let rmatch := if n <? 10 then rmatch +:+ "0" else rmatch in
  Ok (rmatch +:+ g).

Definition pg_get_num_dev_version (text_version : string)
    : Result (string * Z) :=
  match re_match dev_pattern text_version with
  | None => Raise (Exception ("Undefined PostgreSQL version: " +:+ text_version))
  | Some res =>
      rmatch <- as_str (group res 2) ;;
      rmatch <- match group res 3 with
                | Some g3 => append_padded rmatch g3
                | None => Ok (rmatch +:+ "00")
                end ;;
      let rmatch := rmatch +:+ "00" in
      let pg_version := group0 res in
      pg_num_version <- py_int rmatch ;;
      Ok (pg_version, pg_num_version)
  end.

Definition pg_get_num_version (text_version : string)
    : Result (string * Z) :=
  match re_match release_pattern text_version with
  | Some res =>
      rmatch <- as_str (group res 2) ;;
      g3 <- as_str (group res 3) ;;
      rmatch <- append_padded rmatch g3 ;;
      rmatch <- match group res 4 with
                | Some g4 => append_padded rmatch g4
                | None => Ok (rmatch +:+ "00")
                end ;;
      let pg_version := group0 res in
      pg_num_version <- py_int rmatch ;;
      Ok (pg_version, pg_num_version)
  | None => pg_get_num_dev_version text_version
  end.

(** ** The database client and the object store *)

Abbreviation Dict := (gmap string string).

(** A live connection, seen through what the module asks of it. *)
Record Connection : Type := {
  conn_id : nat;
  (** [cur.execute(queries.get("is_superuser")); cur.fetchone()] *)
  is_superuser_row : Result (option string);
  (** [pg_get_version(pg_conn)] *)
  version_row : Result string;
  (** [pg_conn.info.get_parameters()] *)
  info_parameters : Dict
}.

(** The argument shapes of the calls to [psycopg3.connect]
    ([autocommit=True] is common to all). *)
Inductive ConnectArgs : Type :=
| ConnService (service : string)
| ConnDsn (dsn : string)
| ConnSocket (dbname user : string) (port : Z) (password : option string)
| ConnTcp (dbname : string) (host : option string) (port : Z)
          (user : string) (password : option string)
| ConnKwargs (params : Dict).

Record Data : Type := {
  pg_conn : Connection;
  pg_version : string;
  pg_num_version : Z;
  min_duration : Q;
  dsn_parameters : Dict
}.

Inductive Event : Type :=
| EvConnect (args : ConnectArgs)
| EvGetpass.

Definition ref : Type := nat.

Record World : Type := {
  (** what the n-th interaction does when it is [psycopg3.connect(args)] *)
  connect_oracle : nat -> ConnectArgs -> Result Connection;
  (** what the n-th interaction returns when it is [getpass.getpass()] *)
  getpass_oracle : nat -> string;
  log : list Event;
  (** the instances of [Data] created so far *)
  objs : list Data
}.

Definition M (A : Type) : Type := World -> Result A * World.

Definition mret {A : Type} (a : A) : M A := fun w => (Ok a, w).

Definition mbind {A B : Type} (m : M A) (f : A -> M B) : M B :=
  fun w =>
    match m w with
    | (Ok a, w') => f a w'
    | (Raise e, w') => (Raise e, w')
    end.

Definition raise {A : Type} (e : exn) : M A := fun w => (Raise e, w).

(** [try: m] with the outcome handed to the handlers. *)
Definition attempt {A : Type} (m : M A) : M (Result A) :=
  fun w => let (r, w') := m w in (Ok r, w').

Definition lift {A : Type} (r : Result A) : M A := fun w => (r, w).

Declare Scope m_scope.
Delimit Scope m_scope with M.
Notation "x <- m ;; k" := (mbind m (fun x => k))
  (at level 100, m at next level, right associativity) : m_scope.

Definition record_event (e : Event) (w : World) : World :=
  {| connect_oracle := connect_oracle w;
     getpass_oracle := getpass_oracle w;
     log := log w ++ [e];
     objs := objs w |}.

Definition psycopg3_connect (args : ConnectArgs) : M Connection :=
  fun w => (connect_oracle w (length (log w)) args,
            record_event (EvConnect args) w).

Definition getpass : M string :=
  fun w => (Ok (getpass_oracle w (length (log w))), record_event EvGetpass w).

(** Instance creation ([cls(...)], [attr.evolve]): a fresh object. *)
Definition new_data (d : Data) : M ref :=
  fun w => (Ok (length (objs w)),
            {| connect_oracle := connect_oracle w;
               getpass_oracle := getpass_oracle w;
               log := log w;
               objs := objs w ++ [d] |}).

(** Attribute access through a reference.  A Python reference always
    denotes an object; [ReferenceError] only makes the function total. *)
Definition deref (self : ref) : M Data :=
  fun w =>
    match objs w !! self with
    | Some d => (Ok d, w)
    | None => (Raise ReferenceError, w)
    end.

Local Open Scope m_scope.

Definition truthy (s : string) : bool :=
  match s with EmptyString => false | _ => true end.

(** [host is None or host == "localhost"] *)
Definition socket_first (host : option string) : bool :=
  match host with
  | None => true
  | Some h => String.eqb h "localhost"
  end.

(** [Data.pg_connect] (classmethod). *)
Definition Data_pg_connect (min_duration : Q) (host : option string)
    (port : Z) (user : string) (password : option string)
    (database : string) (rds_mode : bool) (service : option string)
    (dsn : string) : M ref :=
  pg_conn <-
    (if socket_first host then
       r <- attempt (psycopg3_connect
              match service with
              | Some sv => ConnService sv
              | None =>
                  if truthy dsn then ConnDsn dsn
                  else ConnSocket database user port password
              end) ;;
       match r with
       | Ok c => mret (Some c)
       | Raise (PsyError cls msg) =>
           match host with
           | None => raise (PsyError cls msg)
           | Some _ => mret None
           end
       | Raise e => raise e
       end
     else mret None) ;;
  pg_conn <-
    match pg_conn with
    | Some c => mret c
    | None =>
        psycopg3_connect
          match service with
          | Some sv => ConnService sv
          | None =>
              if truthy dsn then ConnDsn dsn
              else ConnTcp database host port user password
          end
    end ;;
  _ <- (if negb rds_mode then
          ret <- lift (is_superuser_row pg_conn) ;;
          match ret with
          | None => raise AssertionError
          | Some v =>
              if negb (String.eqb v "on")
              then raise (Exception
                     "Must be run with database superuser privileges.")
              else mret tt
          end
        else mret tt) ;;
  version <- lift (rbind (version_row pg_conn) pg_get_num_version) ;;
  let '(pg_version, pg_num_version) := version in
  new_data {| pg_conn := pg_conn;
              pg_version := pg_version;
              pg_num_version := pg_num_version;
              min_duration := min_duration;
              dsn_parameters := info_parameters pg_conn |}.

(** [attr.evolve(self, pg_conn=..., dsn_parameters=...)] *)
Definition evolve (self : Data) (c : Connection) (params : Dict) : Data :=
  {| pg_conn := c;
     pg_version := pg_version self;
     pg_num_version := pg_num_version self;
     min_duration := min_duration self;
     dsn_parameters := params |}.

(** [Data.try_reconnect] *)
Definition try_reconnect (self : ref) : M (option ref) :=
  this <- deref self ;;
  r <- attempt (psycopg3_connect (ConnKwargs (dsn_parameters this))) ;;
  match r with
  | Raise (PsyError cls msg) =>
      if isinstance cls InterfaceError || isinstance cls OperationalError
      then mret None
      else raise (PsyError cls msg)
  | Raise e => raise e
  | Ok pg_conn =>
      new <- new_data (evolve this pg_conn (info_parameters pg_conn)) ;;
      mret (Some new)
  end.

(** [optparse.Values], the attributes [pg_connect] reads. *)
Record Options : Type := {
  host : option string;
  port : Z;
  username : string;
  dbname : string;
  rds : bool
}.

Section Connect.
(** [utils.clean_str], which strips control characters from a message;
    its code is outside this module. *)
Variable clean_str : string -> string.

(** The body of [for nb_try in range(2)]; [None] when the loop runs out
    without [data] being bound. *)
Fixpoint pg_connect_loop (tries : list Z) (options : Options)
    (dsn : string) (password : option string) (service : option string)
    (exit_on_failed : bool) (min_duration : Q) : M (option ref) :=
  match tries with
  | [] => mret None
  | nb_try :: tries' =>
      r <- attempt (Data_pg_connect min_duration (host options)
             (port options) (username options) password (dbname options)
             (rds options) service dsn) ;;
      match r with
      | Ok data => mret (Some data)
      | Raise (PsyError cls msg) =>
          if isinstance cls OperationalError then
            if (nb_try <? 1) && isinstance cls InvalidPassword then
              password <- getpass ;;
              pg_connect_loop tries' options dsn (Some password) service
                exit_on_failed min_duration
            else if exit_on_failed then
              let msg := replace "FATAL:" EmptyString msg in
              raise (SystemExit ("pg_activity: FATAL: " +:+ clean_str msg))
            else raise (Exception "Could not connect to PostgreSQL")
          else raise (PsyError cls msg)
      | Raise e => raise e
      end
  end.

(** [pg_connect] (module level). *)
Definition pg_connect (options : Options) (dsn : string)
    (password : option string) (service : option string)
    (exit_on_failed : bool) (min_duration : Q) : M ref :=
  data <- pg_connect_loop [0; 1] options dsn password service
            exit_on_failed min_duration ;;
  match data with
  | Some d => mret d
  | None => raise UnboundLocalError
  end.
End Connect.

Local Close Scope m_scope.
Local Open Scope result_scope.

(** ** Database counters and rates *)

(** The row of [get_db_info]: timestamp, no_xact, total_size, max_length. *)
Record DbInfoRow : Type := {
  row_timestamp : Q;
  row_no_xact : Z;
  row_total_size : Z;
  row_max_length : Z
}.

(** [DbInfoDict], with its six keys. *)
Record DbInfoDict : Type := {
  timestamp : Q;
  no_xact : Z;
  total_size : Z;
  max_length : Z;
  tps : Z;
  size_ev : Q
}.

(** The parameters bound to the query; [prev_total_size] is the string
    ["0"] or the previous integer. *)
Record DbInfoParams : Type := {
  skip_db_size : bool;
  prev_total_size : string + Z;
  using_rds_param : bool
}.

(** *** Floats

    A finite float is the rational it denotes.  Python's floats are IEEE
    binary64 numbers: the result of an operation is its exact result
    rounded to 53 significant bits, to the nearest such number, a tie
    going to the one whose last bit is zero.  The eleven-bit exponent is
    not bounded here: results beyond about 1.8e308 in magnitude, where
    binary64 overflows, and below about 2.2e-308, where it loses bits, are
    rounded as everywhere else. *)

(** The nearest integer, a tie going to the even one. *)
Definition round_half_even (y : Q) : Z :=
  let f := Qfloor y in
  match (y - inject_Z f ?= 1 # 2)%Q with
  | Lt => f
  | Gt => f + 1
  | Eq => if Z.even f then f else f + 1
  end.

(** The exponent [e] of a number other than zero:
    [2^e <= |x| < 2^(e+1)]. *)
Definition binade (x : Q) : Z :=
  let e := Z.log2 (Z.abs (Qnum x)) - Z.log2 (Z.pos (Qden x)) in
  if Qle_bool (2 ^ e) (Qabs x) then e else e - 1.

(** Rounding to binary64: the number is scaled to an integer significand
    of 53 bits, which is rounded. *)
Definition round53 (x : Q) : Q :=
  if Qeq_bool x 0 then 0%Q
  else
    let e := binade x - 52 in
    (inject_Z (round_half_even (x * 2 ^ (- e))) * 2 ^ e)%Q.

(** [float(n)] on an [int]; also the conversion of an [int] operand of a
    float operation. *)
Definition float_of_int (n : Z) : Q := round53 (inject_Z n).

(** [a - b] on floats. *)
Definition float_sub (a b : Q) : Q := round53 (a - b).

(** [a / b] on floats. *)
Definition truediv (a b : Q) : Result Q :=
  if Qeq_bool b 0 then Raise ZeroDivisionError else Ok (round53 (a / b)).

(** [int(x)] on a float: the fractional part is dropped. *)
Definition int_of_number (x : Q) : Z := Z.quot (Qnum x) (Z.pos (Qden x)).

(** [Data.pg_get_db_info]; [fetchone] is what the cursor returns for the
    bound parameters. *)
Definition pg_get_db_info (fetchone : DbInfoParams -> Result DbInfoRow)
    (prev_db_infos : option DbInfoDict) (using_rds skip_sizes : bool)
    : Result DbInfoDict :=
  let prev_total_size :=
    match prev_db_infos with
    | Some prev => inr (total_size prev)
    | None => inl "0"%string
    end in
  row <- fetchone {| skip_db_size := skip_sizes;
                     prev_total_size := prev_total_size;
                     using_rds_param := using_rds |} ;;
  let tps := 0 in
  let size_ev := 0%Q in
  rates <-
    match prev_db_infos with
    | Some prev =>
        match truediv (float_of_int (row_no_xact row - no_xact prev))
                      (float_sub (row_timestamp row) (timestamp prev)) with
        | Raise ZeroDivisionError => Ok (tps, size_ev)
        | Raise e => Raise e
        | Ok q =>
            let tps := int_of_number q in
            match truediv (float_of_int (row_total_size row - total_size prev))
                          (float_sub (row_timestamp row) (timestamp prev)) with
            | Raise ZeroDivisionError => Ok (tps, size_ev)
            | Raise e => Raise e
            | Ok size_ev => Ok (tps, size_ev)
            end
        end
    | None => Ok (tps, size_ev)
    end ;;
  let '(tps, size_ev) := rates in
  Ok {| timestamp := row_timestamp row;
        no_xact := row_no_xact row;
        total_size := row_total_size row;
        max_length := row_max_length row;
        tps := tps;
        size_ev := size_ev |}.

(** ** Query selection *)

(** [l[i]] on a Python list. *)
Definition getitem {A : Type} (l : list A) (i : Z) : Result A :=
  let n := Z.of_nat (length l) in
  let j := if i <? 0 then i + n else i in
  if (0 <=? j) && (j <? n) then
    match l !! Z.to_nat j with
    | Some x => Ok x
    | None => Raise IndexError
    end
  else Raise IndexError.

(** [Data.get_duration_column] *)
Definition get_duration_column (duration_mode : Z) : Result string :=
  let duration_mode :=
    if negb (existsb (Z.eqb duration_mode) [1; 2; 3]) then 1
    else duration_mode in
  getitem ["query_start"; "xact_start"; "backend_start"]%string
          (duration_mode - 1).

(** The name handed to [queries.get] by [Data.pg_get_activities]. *)
Definition activities_query (pg_num_version : Z) : Result string :=
  if pg_num_version >=? 110000 then Ok "get_pg_activity_post_110000"%string
  else if pg_num_version >=? 100000 then Ok "get_pg_activity_post_100000"%string
  else if pg_num_version >=? 90600 then Ok "get_pg_activity_post_90600"%string
  else if pg_num_version >=? 90200 then Ok "get_pg_activity_post_90200"%string
  else if pg_num_version <? 90200 then Ok "get_pg_activity"%string
  else Raise UnboundLocalError.

(** [Data.pg_get_activities], up to the query sent: the selected template
    and the column substituted for [{duration_column}]. *)
Definition pg_get_activities (self : Data) (duration_mode : Z)
    : Result (string * string) :=
  query <- activities_query (pg_num_version self) ;;
  duration_column <- get_duration_column duration_mode ;;
  Ok (query, duration_column).

(** [Data.pg_is_local]; [fetchone] is the row (inet_server_addr,
    inet_client_addr), [None] standing for SQL NULL. *)
Definition pg_is_local (fetchone : Result (option string * option string))
    : Result bool :=
  row <- fetchone ;;
  let '(inet_server_addr, inet_client_addr) := row in
  if bool_decide (inet_server_addr = inet_client_addr) then Ok true
  else Ok false.

(** ** Reference notions the properties are stated against *)

(** The language of a pattern: the texts it matches in full. *)
Inductive lang : regex -> string -> Prop :=
| lang_lit l : lang (Lit l) l
| lang_cls_one lo hi a :
    in_range lo hi a = true -> lang (Cls lo hi) (String a EmptyString)
| lang_cls_more lo hi a w :
    in_range lo hi a = true -> lang (Cls lo hi) w ->
    lang (Cls lo hi) (String a w)
| lang_seq r1 r2 w1 w2 :
    lang r1 w1 -> lang r2 w2 -> lang (Seq r1 r2) (w1 +:+ w2)
| lang_alt_l r1 r2 w : lang r1 w -> lang (Alt r1 r2) w
| lang_alt_r r1 r2 w : lang r2 w -> lang (Alt r1 r2) w
| lang_opt_none r : lang (Opt r) EmptyString
| lang_opt_some r w : lang r w -> lang (Opt r) w
| lang_grp n r w : lang r w -> lang (Grp n r) w
| lang_ngrp r w : lang r w -> lang (NGrp r) w.

(** A text begins with a form when some prefix of it has the form. *)
Definition begins_with (form : string -> Prop) (s : string) : Prop :=
  exists w rest, s = w +:+ rest /\ form w.

Definition is_product (p : string) : Prop :=
  p = "PostgreSQL"%string \/ p = "EnterpriseDB"%string.

Definition is_number (n : string) : Prop :=
  n <> EmptyString /\ all_digits n = true.

(** [<product> <major>.<minor>[.<patch>]] *)
Definition release_form (w : string) : Prop :=
  exists product major minor,
    is_product product /\ is_number major /\ is_number minor /\
    (w = product +:+ " " +:+ major +:+ "." +:+ minor \/
     exists patch, is_number patch /\
       w = product +:+ " " +:+ major +:+ "." +:+ minor +:+ "." +:+ patch).

(** [devel], [beta<N>] or [rc<N>] *)
Definition is_prerelease (t : string) : Prop :=
  t = "devel"%string \/
  (exists n, is_number n /\ t = "beta" +:+ n) \/
  (exists n, is_number n /\ t = "rc" +:+ n).

(** [<product> <major>[.<minor>](devel|beta<N>|rc<N>)] *)
Definition dev_form (w : string) : Prop :=
  exists product major tag,
    is_product product /\ is_number major /\ is_prerelease tag /\
    (w = product +:+ " " +:+ major +:+ tag \/
     exists minor, is_number minor /\
       w = product +:+ " " +:+ major +:+ "." +:+ minor +:+ tag).

(** The value of a decimal numeral. *)
Definition numeral (t : string) : Z := int_acc t 0.

(** A decimal numeral of a value below 100 without a leading zero. *)
Definition small_numeral (t : string) : bool :=
  match t with
  | String a EmptyString => is_digit a
  | String a (String b EmptyString) =>
      is_digit a && is_digit b && (1 <=? digit_val a)
  | _ => false
  end.

(** The version brackets of the activity query, newest first, and the
    variant for servers older than all of them. *)
Definition activity_brackets : list (Z * string) :=
  [ (110000, "get_pg_activity_post_110000"%string);
    (100000, "get_pg_activity_post_100000"%string);
    (90600, "get_pg_activity_post_90600"%string);
    (90200, "get_pg_activity_post_90200"%string) ].

Definition legacy_activity_query : string := "get_pg_activity".

(** [b] is the greatest bracket bound not above [v]. *)
Definition greatest_bound_le (b v : Z) : Prop :=
  b ∈ activity_brackets.*1 /\ b <= v /\
  forall b', b' ∈ activity_brackets.*1 -> b' <= v -> b' <= b.

(** The failures [try_reconnect] turns into [None]. *)
Definition absorbed (e : exn) : bool :=
  match e with
  | PsyError cls _ =>
      isinstance cls InterfaceError || isinstance cls OperationalError
  | _ => false
  end.

(** How [pg_connect] surfaces an [OperationalError] it does not retry. *)
Definition fatal (clean_str : string -> string) (exit_on_failed : bool)
    (msg : string) : exn :=
  if exit_on_failed
  then SystemExit ("pg_activity: FATAL: " +:+ clean_str (replace "FATAL:" EmptyString msg))
  else Exception "Could not connect to PostgreSQL".

(** Modelled from the spec: [utils.clean_str] is not part of this module;
    the specification only says that the surfaced text is sanitized of
    control characters.  This instance drops the characters below the
    space and DEL; it is used for concrete runs only. *)
Fixpoint drop_control (s : string) : string :=
  match s with
  | EmptyString => EmptyString
  | String a s' =>
      if ((N_of_ascii a <? 32) || (N_of_ascii a =? 127))%N
      then drop_control s'
      else String a (drop_control s')
  end.

Definition is_getpass (e : Event) : bool :=
  match e with
  | EvGetpass => true
  | EvConnect _ => false
  end.

(** The number of credential prompts, resp. connection attempts, in a
    log. *)
Definition prompts (l : list Event) : nat :=
  length (List.filter is_getpass l).

Definition connects (l : list Event) : nat :=
  length (List.filter (fun e => negb (is_getpass e)) l).

(** Every text captured so far satisfies [P]. *)
Definition caps_ok (P : nat -> string -> Prop) (c : captures) : Prop :=
  forall n w, c !! n = Some w -> P n w.

(** Every group of the pattern can only capture texts satisfying [P]. *)
Fixpoint grp_ok (P : nat -> string -> Prop) (r : regex) : Prop :=
  match r with
  | Grp n r1 => (forall w, lang r1 w -> P n w) /\ grp_ok P r1
  | Seq r1 r2 | Alt r1 r2 => grp_ok P r1 /\ grp_ok P r2
  | Opt r1 | NGrp r1 => grp_ok P r1
  | Lit _ | Cls _ _ => True
  end.

(** Group [n] takes part in every match of the pattern. *)
Fixpoint binds (r : regex) (n : nat) : bool :=
  match r with
  | Grp m r1 => Nat.eqb m n || binds r1 n
  | Seq r1 r2 => binds r1 n || binds r2 n
  | Alt r1 r2 => binds r1 n && binds r2 n
  | NGrp r1 => binds r1 n
  | Opt _ | Lit _ | Cls _ _ => false
  end.

(** One run of the whole connect sequence with the options given. *)
Definition connect_once (options : Options) (dsn : string)
    (password : option string) (service : option string) (min_duration : Q)
    : M ref :=
  Data_pg_connect min_duration (host options) (port options)
    (username options) password (dbname options) (rds options) service dsn.

(** What the wrapper makes of the outcome of an attempt it does not
    retry. *)
Definition surfaced (clean_str : string -> string) (exit_on_failed : bool)
    (r : Result ref) : Result ref :=
  match r with
  | Raise (PsyError cls msg) =>
      if isinstance cls OperationalError
      then Raise (fatal clean_str exit_on_failed msg)
      else r
  | _ => r
  end.

(** The parameters bound for a given previous snapshot. *)
Definition bound_params (prev : option DbInfoDict) (using_rds skip_sizes : bool)
    : DbInfoParams :=
  {| skip_db_size := skip_sizes;
     prev_total_size := match prev with
                        | Some p => inr (total_size p)
                        | None => inl "0"%string
                        end;
     using_rds_param := using_rds |}.

(** The result with given rates. *)
Definition snapshot (row : DbInfoRow) (tps : Z) (size_ev : Q) : DbInfoDict :=
  {| timestamp := row_timestamp row;
     no_xact := row_no_xact row;
     total_size := row_total_size row;
     max_length := row_max_length row;
     tps := tps;
     size_ev := size_ev |}.

(** ** Sample values *)

Definition row_at (t : Q) (xacts size : Z) : DbInfoRow :=
  {| row_timestamp := t; row_no_xact := xacts;
     row_total_size := size; row_max_length := 10 |}.

Definition conn (id : nat) (version : string) : Connection :=
  {| conn_id := id;
     is_superuser_row := Ok (Some "on"%string);
     version_row := Ok version;
     info_parameters := {[ "dbname"%string := "postgres"%string ]} |}.

Definition world (oracle : nat -> ConnectArgs -> Result Connection)
    (sessions : list Data) : World :=
  {| connect_oracle := oracle;
     getpass_oracle := fun _ => "secret"%string;
     log := [];
     objs := sessions |}.

Definition session_11_9 : Data :=
  {| pg_conn := conn 0 "PostgreSQL 11.9";
     pg_version := "PostgreSQL 11.9";
     pg_num_version := 110900;
     min_duration := 0%Q;
     dsn_parameters := {[ "dbname"%string := "postgres"%string ]} |}.

Definition tcp_options : Options :=
  {| host := Some "db.example.org"%string;
     port := 5432;
     username := "postgres";
     dbname := "postgres";
     rds := false |}.

(** A server that accepts the password [secret] only. *)
Definition password_server (n : nat) (args : ConnectArgs) : Result Connection :=
  match args with
  | ConnTcp _ _ _ _ (Some pw) =>
      if String.eqb pw "secret" then Ok (conn n "PostgreSQL 11.9")
      else Raise (PsyError InvalidPassword "FATAL:  password authentication failed")
  | _ => Raise (PsyError InvalidPassword "FATAL:  password authentication failed")
  end.

Definition starting_up : string :=
  "FATAL:  the database system is starting up" +:+ String "010" EmptyString.

(** ** The remaining operations of [Data] *)

(** [bool(x)] on a fetched boolean, [None] standing for SQL NULL. *)
Definition truth (x : option bool) : bool :=
  match x with
  | Some b => b
  | None => false
  end.

(** [Data.pg_cancel_backend]; [execute] is what the cursor returns for a
    query name and the [pid] parameter. *)
Definition pg_cancel_backend (execute : string -> Z -> Result (option bool))
    (self : Data) (pid : Z) : Result bool :=
  let query := "do_pg_cancel_backend"%string in
  is_stopped <- execute query pid ;;
  Ok (truth is_stopped).

(** [Data.pg_terminate_backend] *)
Definition pg_terminate_backend (execute : string -> Z -> Result (option bool))
    (self : Data) (pid : Z) : Result bool :=
  let query :=
    if pg_num_version self >=? 80400 then "do_pg_terminate_backend"%string
    else "do_pg_cancel_backend"%string in
  is_stopped <- execute query pid ;;
  Ok (truth is_stopped).

(** The name handed to [queries.get] by [Data.pg_get_waiting]. *)
Definition waiting_query (pg_num_version : Z) : Result string :=
  if pg_num_version >=? 90200 then Ok "get_waiting_post_90200"%string
  else if pg_num_version <? 90200 then Ok "get_waiting"%string
  else Raise UnboundLocalError.

(** [Data.pg_get_waiting], up to the query sent. *)
Definition pg_get_waiting (self : Data) (duration_mode : Z)
    : Result (string * string) :=
  query <- waiting_query (pg_num_version self) ;;
  duration_column <- get_duration_column duration_mode ;;
  Ok (query, duration_column).

(** The name handed to [queries.get] by [Data.pg_get_blocking]. *)
Definition blocking_query (pg_num_version : Z) : Result string :=
  if pg_num_version >=? 90200 then Ok "get_blocking_post_90200"%string
  else if pg_num_version <? 90200 then Ok "get_blocking"%string
  else Raise UnboundLocalError.

(** [Data.pg_get_blocking], up to the query sent. *)
Definition pg_get_blocking (self : Data) (duration_mode : Z)
    : Result (string * string) :=
  query <- blocking_query (pg_num_version self) ;;
  duration_column <- get_duration_column duration_mode ;;
  Ok (query, duration_column).

(** What [Data.pg_is_local_access] asks of the server, the file system and
    [psutil]. *)
Record LocalProbe : Type := {
  (** [cur.execute(queries.get("get_pid_file")); (pid_file,) = cur.fetchone()] *)
  pid_file_row : Result string;
  (** [open(pid_file, "r")] and [fd.readlines()] *)
  readlines : string -> Result (list string);
  (** [psutil.Process(int(line.strip()))] for the first line read *)
  process : string -> Result nat;
  (** [proc.io_counters()] *)
  io_counters : nat -> Result unit;
  (** [proc.cpu_times()] *)
  cpu_times : nat -> Result unit
}.

(** The classes deriving from [Exception]; [SystemExit] derives from
    [BaseException] only. *)
Definition is_exception (e : exn) : bool :=
  match e with
  | SystemExit _ => false
  | _ => true
  end.

(** [try: body] followed by [except Exception: return False]. *)
Definition except_false (body : Result bool) : Result bool :=
  match body with
  | Raise e => if is_exception e then Ok false else Raise e
  | Ok b => Ok b
  end.

(** [Data.pg_is_local_access]; the handlers for [psutil.AccessDenied] and
    for [Exception] of the inner [try] both return [False]. *)
Definition pg_is_local_access (env : LocalProbe) : Result bool :=
  except_false
    (pid_file <- pid_file_row env ;;
     lines <- readlines env pid_file ;;
     line <- getitem lines 0 ;;
     except_false
       (proc <- process env line ;;
        _ <- io_counters env proc ;;
        _ <- cpu_times env proc ;;
        Ok true)).

(** ** [setup.py]: the package version *)

(** [s.split(sep)] for a separator of one character. *)
Fixpoint split (sep : ascii) (s : string) : list string :=
  match s with
  | EmptyString => [EmptyString]
  | String a s' =>
      if Ascii.eqb a sep then EmptyString :: split sep s'
      else match split sep s' with
           | h :: t => String a h :: t
           | [] => [String a EmptyString]
           end
  end.

Definition startswith (s p : string) : bool :=
  match strip_prefix p s with
  | Some _ => true
  | None => false
  end.

Definition dquote : ascii := "034".

(** [get_version]; [lines] are the lines of [pgactivity/__init__.py] and
    [fpath] is its path as printed. *)
Fixpoint get_version (fpath : string) (lines : list string) : Result string :=
  match lines with
  | [] => Raise (Exception ("version information not found in " +:+ fpath))
  | line :: lines' =>
      if startswith line "__version__" then getitem (split dquote line) 1
      else get_version fpath lines'
  end.

(** ** Further reference notions *)

(** The first step of the local-access probe that fails raises [e]; the
    first line of a file without lines is an [IndexError]. *)
Definition probe_fails (env : LocalProbe) (e : exn) : Prop :=
  pid_file_row env = Raise e
  \/ exists pid_file,
       pid_file_row env = Ok pid_file
       /\ (readlines env pid_file = Raise e
           \/ (readlines env pid_file = Ok [] /\ e = IndexError)
           \/ exists line lines,
                readlines env pid_file = Ok (line :: lines)
                /\ (process env line = Raise e
                    \/ exists proc,
                         process env line = Ok proc
                         /\ (io_counters env proc = Raise e
                             \/ (io_counters env proc = Ok tt
                                 /\ cpu_times env proc = Raise e)))).

(** Every step of the probe succeeds. *)
Definition probe_succeeds (env : LocalProbe) : Prop :=
  exists pid_file lines line proc,
    pid_file_row env = Ok pid_file
    /\ readlines env pid_file = Ok (line :: lines)
    /\ process env line = Ok proc
    /\ io_counters env proc = Ok tt
    /\ cpu_times env proc = Ok tt.

(** The unit roundoff of binary64, [2^-53]. *)
Definition unit_roundoff : Q := 1 # 9007199254740992.

(** The connection attempts [Data.pg_connect] makes first and second. *)
Definition socket_args (service : option string) (dsn database user : string)
    (port : Z) (password : option string) : ConnectArgs :=
  match service with
  | Some sv => ConnService sv
  | None =>
      if truthy dsn then ConnDsn dsn
      else ConnSocket database user port password
  end.

Definition tcp_args (service : option string) (dsn database : string)
    (host : option string) (port : Z) (user : string)
    (password : option string) : ConnectArgs :=
  match service with
  | Some sv => ConnService sv
  | None =>
      if truthy dsn then ConnDsn dsn
      else ConnTcp database host port user password
  end.

(** The connection attempts one run of [Data.pg_connect] makes, given the
    outcome [first] of the attempt without a host. *)
Definition attempts_of (host : option string) (first : Result Connection)
    (service : option string) (dsn database user : string) (port : Z)
    (password : option string) : list ConnectArgs :=
  if socket_first host then
    match first, host with
    | Raise (PsyError _ _), Some _ =>
        [ socket_args service dsn database user port password;
          tcp_args service dsn database host port user password ]
    | _, _ => [ socket_args service dsn database user port password ]
    end
  else [ tcp_args service dsn database host port user password ].

(** The arguments every attempt uses when a service name or a connection
    string is given. *)
Definition fixed_args (service : option string) (dsn : string)
    : option ConnectArgs :=
  match service with
  | Some sv => Some (ConnService sv)
  | None => if truthy dsn then Some (ConnDsn dsn) else None
  end.

(** [old in s] *)
Fixpoint contains (old s : string) : bool :=
  if startswith s old then true
  else match s with
       | EmptyString => false
       | String _ s' => contains old s'
       end.

(** A session as [Data.pg_connect] builds it from a connection. *)
Definition fresh_session (rds_mode : bool) (min_dur : Q) (d : Data) : Prop :=
  rbind (version_row (pg_conn d)) pg_get_num_version
    = Ok (pg_version d, pg_num_version d)
  /\ dsn_parameters d = info_parameters (pg_conn d)
  /\ min_duration d = min_dur
  /\ (rds_mode = false -> is_superuser_row (pg_conn d) = Ok (Some "on"%string)).

(** A character no further digit or patch number can start with. *)
Definition stops (rest : string) : bool :=
  match rest with
  | EmptyString => true
  | String a rest' =>
      negb (is_digit a)
      && (negb (Ascii.eqb a ".")
          || match rest' with
             | EmptyString => true
             | String b _ => negb (is_digit b)
             end)
  end.

(** The text does not go on with a character of the range. *)
Definition head_out (lo hi : ascii) (rest : string) : bool :=
  match rest with
  | EmptyString => true
  | String a _ => negb (in_range lo hi a)
  end.

Definition no_digit_next (rest : string) : bool := head_out "0" "9" rest.

(** The numbers of a text the release pattern matches, when minor and
    patch are written as numerals below 100 without a leading zero. *)
Definition release_parts (s : string) (p : Z * Z * Z) : Prop :=
  exists m maj mi,
    re_match release_pattern s = Some m
    /\ group m 2 = Some maj /\ group m 3 = Some mi
    /\ small_numeral mi = true
    /\ (forall pa, group m 4 = Some pa -> small_numeral pa = true)
    /\ p = (numeral maj, numeral mi, from_option numeral 0 (group m 4)).

(** The major number of a text either pattern matches, when the minor and
    patch numbers present are numerals below 100 without a leading zero. *)
Definition major_of (s : string) (major : Z) : Prop :=
  exists m maj,
    group m 2 = Some maj /\ major = numeral maj
    /\ ((re_match release_pattern s = Some m
         /\ (forall mi, group m 3 = Some mi -> small_numeral mi = true)
         /\ (forall pa, group m 4 = Some pa -> small_numeral pa = true))
        \/ (re_match release_pattern s = None
            /\ re_match dev_pattern s = Some m
            /\ (forall mi, group m 3 = Some mi -> small_numeral mi = true))).

(** Release order on (major, minor, patch). *)
Definition release_lt (a b : Z * Z * Z) : Prop :=
  let '(a1, a2, a3) := a in
  let '(b1, b2, b3) := b in
  a1 < b1 \/ (a1 = b1 /\ (a2 < b2 \/ (a2 = b2 /\ a3 < b3))).

Fixpoint has_char (c : ascii) (s : string) : bool :=
  match s with
  | EmptyString => false
  | String a s' => Ascii.eqb a c || has_char c s'
  end.

(** ** Further sample values *)

(** The float nearest to a tenth, [0.1]. *)
Definition tenth : Q := 3602879701896397 # 36028797018963968.

(** The float nearest to [1600068400.0000002]. *)
Definition epoch_later : Q := 6711173290393601 # 4194304.

Definition session_8_3 : Data :=
  {| pg_conn := conn 0 "PostgreSQL 8.3.23";
     pg_version := "PostgreSQL 8.3.23";
     pg_num_version := 80323;
     min_duration := 0%Q;
     dsn_parameters := {[ "dbname"%string := "postgres"%string ]} |}.

(** A server that knows the cancel function only. *)
Definition cancel_only (query : string) (pid : Z) : Result (option bool) :=
  if String.eqb query "do_pg_cancel_backend" then Ok (Some true)
  else Raise (PsyError Error "function pg_terminate_backend(integer) does not exist").

(** A readable PID file and a visible process. *)
Definition open_probe : LocalProbe :=
  {| pid_file_row := Ok "/var/lib/postgresql/postmaster.pid"%string;
     readlines := fun _ => Ok ["4242"; "/var/lib/postgresql"]%string;
     process := fun _ => Ok 4242%nat;
     io_counters := fun _ => Ok tt;
     cpu_times := fun _ => Ok tt |}.

(** The same for a user who may not read the counters. *)
Definition denied_probe : LocalProbe :=
  {| pid_file_row := Ok "/var/lib/postgresql/postmaster.pid"%string;
     readlines := fun _ => Ok ["4242"]%string;
     process := fun _ => Ok 4242%nat;
     io_counters := fun _ => Raise (Exception "psutil.AccessDenied");
     cpu_times := fun _ => Ok tt |}.

Definition init_lines : list string :=
  [ "import sys"%string;
    ("__version__ = " +:+ String dquote ("2.2.0" +:+ String dquote EmptyString));
    "# end"%string ].

(** * Properties *)

(** ** Strings and the matching engine *)

Lemma sapp_cons (a : ascii) (s t : string) :
  String a s +:+ t = String a (s +:+ t).
Proof. reflexivity. Qed.

Lemma sapp_nil_l (s : string) : EmptyString +:+ s = s.
Proof. reflexivity. Qed.

Lemma sapp_nil_r (s : string) : s +:+ EmptyString = s.
Proof. induction s as [| a s IH]; [reflexivity |]. now rewrite sapp_cons, IH. Qed.

Lemma sapp_assoc (a b c : string) : (a +:+ b) +:+ c = a +:+ (b +:+ c).
Proof.
  induction a as [| x a IH]; [reflexivity |].
  now rewrite !sapp_cons, IH.
Qed.

Lemma sapp_eq_nil (a b : string) : a +:+ b = EmptyString -> a = EmptyString.
Proof. destruct a; [reflexivity | discriminate]. Qed.

Lemma strip_prefix_app (p s : string) : strip_prefix p (p +:+ s) = Some s.
Proof.
  induction p as [| a p IH]; [reflexivity |].
  rewrite sapp_cons. cbn. now rewrite Ascii.eqb_refl.
Qed.

Lemma strip_prefix_Some (p s rest : string) :
  strip_prefix p s = Some rest -> s = p +:+ rest.
Proof.
  revert s. induction p as [| a p IH]; intros s H.
  - cbn in H. now injection H as ->.
  - destruct s as [| b s]; [discriminate |]. cbn in H.
    destruct (Ascii.eqb_spec a b) as [-> | _]; [| discriminate].
    rewrite sapp_cons. f_equal. now apply IH.
Qed.

Lemma all_in_range_app (lo hi : ascii) (a b : string) :
  all_in_range lo hi (a +:+ b) = all_in_range lo hi a && all_in_range lo hi b.
Proof.
  induction a as [| x a IH]; [reflexivity |].
  rewrite sapp_cons. cbn. now rewrite IH, andb_assoc.
Qed.

Lemma lang_cls_iff (lo hi : ascii) (w : string) :
  lang (Cls lo hi) w <-> w <> EmptyString /\ all_in_range lo hi w = true.
Proof.
  split.
  - intros H. remember (Cls lo hi) as r eqn:Er.
    induction H; try discriminate; injection Er as -> ->.
    + split; [discriminate |]. cbn. now rewrite H.
    + split; [discriminate |]. cbn. rewrite H.
      now destruct (IHlang eq_refl) as [_ ->].
  - induction w as [| a w IH]; intros [Hne Hall]; [congruence |].
    cbn in Hall. apply andb_true_iff in Hall as [Ha Hw].
    destruct w as [| b w]; [now constructor |].
    apply lang_cls_more; [assumption |]. apply IH. now split.
Qed.

Section EngineFacts.
Context {R : Type}.

Lemma many_sound (lo hi : ascii) (s : string)
    (k : string -> string -> option R) (x : R) :
  many lo hi s k = Some x ->
  exists w rest,
    s = w +:+ rest /\ all_in_range lo hi w = true /\ k w rest = Some x.
Proof.
  revert k. induction s as [| a s IH]; intros k H; cbn in H.
  - exists EmptyString, EmptyString. auto.
  - destruct (in_range lo hi a) eqn:Ha.
    + destruct (many lo hi s _) as [y |] eqn:Hm.
      * injection H as ->. apply IH in Hm as (w & rest & -> & Hw & Hk).
        exists (String a w), rest. cbn. rewrite Ha, Hw. auto.
      * exists EmptyString, (String a s). auto.
    + exists EmptyString, (String a s). auto.
Qed.

Lemma many_complete (lo hi : ascii) (w rest : string)
    (k : string -> string -> option R) :
  all_in_range lo hi w = true ->
  is_Some (k w rest) -> is_Some (many lo hi (w +:+ rest) k).
Proof.
  revert k. induction w as [| a w IH]; intros k Hw Hk.
  - rewrite sapp_nil_l. destruct rest as [| b rest]; [exact Hk |].
    cbn. destruct (in_range lo hi b); [| exact Hk].
    destruct (many lo hi rest _); [eauto | exact Hk].
  - cbn in Hw. apply andb_true_iff in Hw as [Ha Hw].
    rewrite sapp_cons. cbn. rewrite Ha.
    destruct (IH (fun w' r => k (String a w') r) Hw Hk) as [y ->]. eauto.
Qed.
End EngineFacts.

Section RunFacts.
Context {R : Type} (P : nat -> string -> Prop).

Lemma run_sound (r : regex) :
  grp_ok P r ->
  forall (s : string) (c : captures)
         (k : string -> string -> captures -> option R) (x : R),
    caps_ok P c ->
    run r s c k = Some x ->
    exists w rest c',
      s = w +:+ rest /\ lang r w /\ caps_ok P c'
      /\ (forall n, is_Some (c !! n) \/ binds r n = true -> is_Some (c' !! n))
      /\ k w rest c' = Some x.
Proof.
  induction r as [l | lo hi | r1 IH1 r2 IH2 | r1 IH1 r2 IH2 | r1 IH1
                 | m r1 IH1 | r1 IH1];
    intros Hok s c k x Hc Hrun; cbn in Hrun, Hok.
  - destruct (strip_prefix l s) as [rest |] eqn:Hp; [| discriminate].
    apply strip_prefix_Some in Hp.
    exists l, rest, c. repeat split; try assumption; [constructor |].
    intros n [Hn | Hn]; [assumption | discriminate].
  - destruct s as [| a s]; [discriminate |].
    destruct (in_range lo hi a) eqn:Ha; [| discriminate].
    apply many_sound in Hrun as (w & rest & -> & Hw & Hk).
    exists (String a w), rest, c. repeat split; try assumption.
    + apply lang_cls_iff. split; [discriminate |]. cbn. now rewrite Ha, Hw.
    + intros n [Hn | Hn]; [assumption | discriminate].
  - destruct Hok as [Hok1 Hok2].
    apply (IH1 Hok1) in Hrun as (w1 & s1 & c1 & -> & Hl1 & Hc1 & Hb1 & Hrun);
      [| assumption].
    apply (IH2 Hok2) in Hrun as (w2 & s2 & c2 & -> & Hl2 & Hc2 & Hb2 & Hrun);
      [| assumption].
    exists (w1 +:+ w2), s2, c2. repeat split; try assumption.
    + now rewrite sapp_assoc.
    + now constructor.
    + intros n Hn. apply Hb2. cbn in Hn.
      rewrite orb_true_iff in Hn.
      destruct Hn as [Hn | [Hn | Hn]]; auto.
  - destruct Hok as [Hok1 Hok2].
    destruct (run r1 s c k) as [y |] eqn:H1.
    + injection Hrun as ->.
      apply (IH1 Hok1) in H1 as (w & rest & c' & -> & Hl & Hc' & Hb & Hk);
        [| assumption].
      exists w, rest, c'. repeat split; try assumption; [now apply lang_alt_l |].
      intros n Hn. apply Hb. cbn in Hn. rewrite andb_true_iff in Hn. tauto.
    + apply (IH2 Hok2) in Hrun as (w & rest & c' & -> & Hl & Hc' & Hb & Hk);
        [| assumption].
      exists w, rest, c'. repeat split; try assumption; [now apply lang_alt_r |].
      intros n Hn. apply Hb. cbn in Hn. rewrite andb_true_iff in Hn. tauto.
  - destruct (run r1 s c k) as [y |] eqn:H1.
    + injection Hrun as ->.
      apply (IH1 Hok) in H1 as (w & rest & c' & -> & Hl & Hc' & Hb & Hk);
        [| assumption].
      exists w, rest, c'. repeat split; try assumption; [now apply lang_opt_some |].
      intros n [Hn | Hn]; [auto | discriminate].
    + exists EmptyString, s, c. repeat split; try assumption; [constructor |].
      intros n [Hn | Hn]; [assumption | discriminate].
  - destruct Hok as [HP Hok].
    apply (IH1 Hok) in Hrun as (w & rest & c' & -> & Hl & Hc' & Hb & Hk);
      [| assumption].
    exists w, rest, (<[m := w]> c'). repeat split; try assumption.
    + now constructor.
    + intros n v Hv. destruct (decide (m = n)) as [-> | Hne].
      * rewrite lookup_insert_eq in Hv. injection Hv as <-. now apply HP.
      * rewrite lookup_insert_ne in Hv by assumption. now apply Hc'.
    + intros n Hn. destruct (decide (m = n)) as [-> | Hne].
      * rewrite lookup_insert_eq. eauto.
      * rewrite lookup_insert_ne by assumption. apply Hb.
        cbn in Hn. rewrite orb_true_iff, Nat.eqb_eq in Hn. tauto.
  - apply (IH1 Hok) in Hrun as (w & rest & c' & -> & Hl & Hc' & Hb & Hk);
      [| assumption].
    exists w, rest, c'. repeat split; try assumption. now constructor.
Qed.

Lemma run_complete (r : regex) (w : string) :
  lang r w ->
  forall (rest : string) (c : captures)
         (k : string -> string -> captures -> option R),
    (forall c', is_Some (k w rest c')) ->
    is_Some (run r (w +:+ rest) c k).
Proof.
  induction 1 as [l | lo hi a Ha | lo hi a w Ha Hw _ | r1 r2 w1 w2 _ IH1 _ IH2
                 | r1 r2 w _ IH | r1 r2 w _ IH | r | r w _ IH
                 | n r w _ IH | r w _ IH];
    intros rest c k Hk; cbn.
  - rewrite strip_prefix_app. apply Hk.
  - rewrite sapp_cons, Ha.
    apply (many_complete lo hi EmptyString rest
             (fun w r => k (String a w) r c)); [reflexivity | apply Hk].
  - rewrite sapp_cons, Ha.
    apply lang_cls_iff in Hw as [_ Hw].
    apply (many_complete lo hi w rest (fun w r => k (String a w) r c));
      [assumption | apply Hk].
  - rewrite sapp_assoc. apply IH1. intros c1. apply IH2. intros c2. apply Hk.
  - destruct (IH rest c k Hk) as [y ->]. eauto.
  - destruct (run r1 (w +:+ rest) c k); [eauto |]. now apply IH.
  - rewrite sapp_nil_l. destruct (run r rest c k); [eauto | apply Hk].
  - destruct (IH rest c k Hk) as [y ->]. eauto.
  - apply IH. intros c'. apply Hk.
  - now apply IH.
Qed.
End RunFacts.

(** [re.match] succeeds exactly on the texts that begin with a word of the
    pattern's language. *)
Lemma re_match_iff (r : regex) (s : string) :
  is_Some (re_match r s) <-> begins_with (lang r) s.
Proof.
  unfold re_match. split.
  - intros [m Hm].
    apply (run_sound (fun _ _ => True)) in Hm
      as (w & rest & c' & -> & Hl & _); [| | easy].
    + now exists w, rest.
    + clear. induction r; cbn; auto.
  - intros (w & rest & -> & Hl).
    apply run_complete; [assumption | eauto].
Qed.

Lemma re_match_sound (P : nat -> string -> Prop) (r : regex) (s : string)
    (m : Match) :
  grp_ok P r ->
  re_match r s = Some m ->
  (exists rest, s = group0 m +:+ rest)
  /\ lang r (group0 m)
  /\ caps_ok P (groups m)
  /\ (forall n, binds r n = true -> is_Some (group m n)).
Proof.
  intros Hok Hm. unfold re_match in Hm.
  apply (run_sound P r Hok) in Hm
    as (w & rest & c' & -> & Hl & Hc & Hb & Hk); [| easy].
  injection Hk as <-. cbn. repeat split; eauto.
Qed.

(** The engine backtracks: the greedy run of digits gives back its last
    character to the literal that follows, and an optional part whose
    continuation fails is undone together with its capture. *)
Example run_backtracks :
  re_match (Grp 1 digits ;;; Lit "1")%re "2111x"
  = Some {| group0 := "2111"; groups := {[ 1%nat := "211" ]} |}
  /\ re_match (Opt (Grp 1 (Lit "a")) ;;; Lit "ab")%re "abc"
     = Some {| group0 := "ab"; groups := ∅ |}.
Proof. split; vm_compute; reflexivity. Qed.

(** ** The two patterns and the forms they stand for *)

Ltac inv_lang :=
  repeat match goal with
    | H : lang (Seq _ _) _ |- _ => inversion H; subst; clear H
    | H : lang (Alt _ _) _ |- _ => inversion H; subst; clear H
    | H : lang (Lit _) _ |- _ => inversion H; subst; clear H
    | H : lang (Grp _ _) _ |- _ => inversion H; subst; clear H
    | H : lang (NGrp _) _ |- _ => inversion H; subst; clear H
    | H : lang (Opt _) _ |- _ => inversion H; subst; clear H
    | H : lang (Cls _ _) _ |- _ => apply lang_cls_iff in H
    end.

Lemma lang_digits (w : string) : lang digits w <-> is_number w.
Proof. apply lang_cls_iff. Qed.

Lemma lang_product (p : string) :
  lang (Grp 1 (Lit "PostgreSQL" |+| Lit "EnterpriseDB")%re) p <-> is_product p.
Proof.
  split.
  - intros H. inv_lang; [now left | now right].
  - intros [-> | ->]; constructor; [apply lang_alt_l | apply lang_alt_r];
      constructor.
Qed.

Lemma lang_prerelease (t : string) :
  lang (Grp 4 (Lit "devel" |+| (Lit "beta" ;;; digits) |+| (Lit "rc" ;;; digits))%re) t
  <-> is_prerelease t.
Proof.
  split.
  - intros H. unfold digits in H. inv_lang.
    + now left.
    + right; left. eexists; split; [eassumption | reflexivity].
    + right; right. eexists; split; [eassumption | reflexivity].
  - intros [-> | [(n & Hn & ->) | (n & Hn & ->)]]; constructor.
    + apply lang_alt_l. constructor.
    + apply lang_alt_r, lang_alt_l. constructor; [constructor |].
      now apply lang_digits.
    + apply lang_alt_r, lang_alt_r. constructor; [constructor |].
      now apply lang_digits.
Qed.

Lemma lang_release (w : string) : lang release_pattern w <-> release_form w.
Proof.
  unfold release_pattern. split.
  - intros H.
    inversion H as [| | | ? ? p w1 Hp H1 | | | | | |]; subst; clear H.
    apply lang_product in Hp.
    inversion H1 as [| | | ? ? sp w2 Hsp H2 | | | | | |]; subst; clear H1.
    inversion H2 as [| | | ? ? maj w3 Hmaj H3 | | | | | |]; subst; clear H2.
    inversion H3 as [| | | ? ? dot w4 Hdot H4 | | | | | |]; subst; clear H3.
    inversion H4 as [| | | ? ? mi w5 Hmi H5 | | | | | |]; subst; clear H4.
    inversion Hmaj; subst. inversion Hmi; subst.
    match goal with H : lang digits maj |- _ => apply lang_digits in H end.
    match goal with H : lang digits mi |- _ => apply lang_digits in H end.
    unfold digits in H5. inv_lang.
    + exists p, maj, mi. do 3 (split; [assumption |]).
      left. now rewrite sapp_nil_r.
    + exists p, maj, mi. do 3 (split; [assumption |]).
      right. eexists. split; [eassumption | reflexivity].
  - intros (p & maj & mi & Hp & Hmaj & Hmi & Hw).
    apply lang_product in Hp. apply lang_digits in Hmaj, Hmi.
    destruct Hw as [-> | (pa & Hpa & ->)].
    + rewrite <- (sapp_nil_r mi).
      repeat (apply lang_seq; [first [assumption | constructor; assumption
                                     | constructor] |]).
      apply lang_opt_none.
    + apply lang_digits in Hpa.
      repeat (apply lang_seq; [first [assumption | constructor; assumption
                                     | constructor] |]).
      apply lang_opt_some, lang_ngrp, lang_seq; [constructor |].
      now constructor.
Qed.

Lemma lang_dev (w : string) : lang dev_pattern w <-> dev_form w.
Proof.
  unfold dev_pattern. split.
  - intros H.
    inversion H as [| | | ? ? p w1 Hp H1 | | | | | |]; subst; clear H.
    apply lang_product in Hp.
    inversion H1 as [| | | ? ? sp w2 Hsp H2 | | | | | |]; subst; clear H1.
    inversion H2 as [| | | ? ? maj w3 Hmaj H3 | | | | | |]; subst; clear H2.
    inversion H3 as [| | | ? ? opt tag Hopt Htag | | | | | |]; subst; clear H3.
    apply lang_prerelease in Htag.
    inversion Hmaj; subst.
    match goal with H : lang digits maj |- _ => apply lang_digits in H end.
    unfold digits in Hopt. inv_lang.
    + exists p, maj, tag. do 3 (split; [assumption |]). now left.
    + exists p, maj, tag. do 3 (split; [assumption |]).
      right. eexists. split; [eassumption |]. now rewrite sapp_assoc.
  - intros (p & maj & tag & Hp & Hmaj & Htag & Hw).
    apply lang_product in Hp. apply lang_digits in Hmaj.
    apply lang_prerelease in Htag.
    destruct Hw as [-> | (mi & Hmi & ->)].
    + rewrite <- (sapp_nil_l tag).
      repeat (apply lang_seq; [first [assumption | constructor; assumption
                                     | constructor] |]).
      assumption.
    + apply lang_digits in Hmi. rewrite <- (sapp_assoc "." mi tag).
      apply lang_seq; [assumption |].
      apply lang_seq; [constructor |].
      apply lang_seq; [now constructor |].
      apply lang_seq; [| assumption].
      apply lang_opt_some, lang_ngrp, lang_seq; [constructor |].
      now constructor.
Qed.

Lemma begins_with_ext (F G : string -> Prop) (s : string) :
  (forall w, F w <-> G w) -> begins_with F s <-> begins_with G s.
Proof.
  intros HFG. unfold begins_with.
  split; intros (w & rest & -> & Hw); exists w, rest; split; auto;
    now apply HFG.
Qed.

(** ** Numerals *)

Lemma int_acc_app (a b : string) (acc : Z) :
  int_acc (a +:+ b) acc = int_acc b (int_acc a acc).
Proof.
  revert acc. induction a as [| x a IH]; intros acc; [reflexivity |].
  rewrite sapp_cons. cbn. apply IH.
Qed.

Lemma all_digits_app (a b : string) :
  all_digits (a +:+ b) = all_digits a && all_digits b.
Proof. apply all_in_range_app. Qed.

Lemma is_number_app_l (a b : string) :
  is_number a -> all_digits b = true -> is_number (a +:+ b).
Proof.
  intros [Hne Ha] Hb. split.
  - intros H. apply sapp_eq_nil in H. contradiction.
  - now rewrite all_digits_app, Ha, Hb.
Qed.

Lemma is_number_all_digits (a : string) : is_number a -> all_digits a = true.
Proof. now intros [_ H]. Qed.

Lemma py_int_number (t : string) : is_number t -> py_int t = Ok (numeral t).
Proof.
  intros [Hne Hd]. unfold py_int. rewrite Hd.
  destruct t; [contradiction | reflexivity].
Qed.

Lemma digit_bounds (a : ascii) : is_digit a = true -> 0 <= digit_val a <= 9.
Proof.
  unfold is_digit, in_range, digit_val.
  change (N_of_ascii "0") with 48%N. change (N_of_ascii "9") with 57%N.
  rewrite andb_true_iff, !N.leb_le. lia.
Qed.

Lemma small_numeral_number (t : string) :
  small_numeral t = true -> is_number t.
Proof.
  destruct t as [| a [| b [| c t]]]; cbn; try discriminate.
  - intros Ha. split; [discriminate |]. unfold all_digits. cbn.
    fold (is_digit a). now rewrite Ha.
  - rewrite !andb_true_iff. intros [[Ha Hb] _].
    split; [discriminate |]. unfold all_digits. cbn.
    fold (is_digit a) (is_digit b). now rewrite Ha, Hb.
Qed.

Lemma append_padded_number (r g : string) :
  is_number r -> is_number g ->
  exists r', append_padded r g = Ok r' /\ is_number r'.
Proof.
  intros Hr Hg. unfold append_padded.
  rewrite (py_int_number g Hg). cbn [rbind].
  eexists. split; [reflexivity |].
  destruct (numeral g <? 10).
  - apply is_number_app_l; [| now apply is_number_all_digits].
    now apply is_number_app_l.
  - apply is_number_app_l; [assumption | now apply is_number_all_digits].
Qed.

(** Padding a small numeral appends exactly two digits. *)
Lemma append_padded_small (r g : string) :
  is_number r -> small_numeral g = true ->
  exists r', append_padded r g = Ok r' /\ is_number r'
             /\ numeral r' = numeral r * 100 + numeral g.
Proof.
  intros Hr Hg.
  destruct (append_padded_number r g Hr (small_numeral_number g Hg))
    as (r' & Hr' & Hnum).
  exists r'. split; [assumption |]. split; [assumption |].
  unfold append_padded in Hr'.
  rewrite (py_int_number g (small_numeral_number g Hg)) in Hr'.
  cbn [rbind] in Hr'. injection Hr' as <-.
  destruct g as [| a [| b [| c g]]]; cbn in Hg; try discriminate.
  - apply digit_bounds in Hg.
    unfold numeral. cbn [int_acc].
    destruct (Z.ltb_spec (10 * 0 + digit_val a) 10) as [_ | Hge]; [| lia].
    rewrite !int_acc_app. cbn [int_acc].
    change (digit_val "0") with 0. lia.
  - rewrite !andb_true_iff in Hg. destruct Hg as [[Ha Hb] H1].
    apply digit_bounds in Ha, Hb. apply Z.leb_le in H1.
    unfold numeral. cbn [int_acc].
    destruct (Z.ltb_spec (10 * (10 * 0 + digit_val a) + digit_val b) 10)
      as [Hlt | _]; [lia |].
    rewrite !int_acc_app. cbn [int_acc]. lia.
Qed.

Lemma numeral_app_00 (r : string) : numeral (r +:+ "00") = numeral r * 100.
Proof.
  unfold numeral. rewrite int_acc_app. cbn [int_acc].
  change (digit_val "0") with 0. lia.
Qed.

(** ** What a match of either pattern captures *)

Lemma release_groups (s : string) (m : Match) :
  re_match release_pattern s = Some m ->
  exists maj mi,
    group m 2 = Some maj /\ group m 3 = Some mi
    /\ is_number maj /\ is_number mi
    /\ (forall pa, group m 4 = Some pa -> is_number pa).
Proof.
  intros Hm.
  apply (re_match_sound
           (fun n w => (n = 2 \/ n = 3 \/ n = 4)%nat -> is_number w)) in Hm
    as (_ & _ & Hc & Hb).
  - destruct (Hb 2%nat eq_refl) as [maj Hmaj].
    destruct (Hb 3%nat eq_refl) as [mi Hmi].
    exists maj, mi. do 2 (split; [assumption |]).
    split; [apply (Hc 2%nat); [exact Hmaj | lia] |].
    split; [apply (Hc 3%nat); [exact Hmi | lia] |].
    intros pa Hpa. apply (Hc 4%nat); [exact Hpa | lia].
  - cbn. repeat match goal with |- _ /\ _ => split end;
      try exact I; intros w Hw Hn; first [lia | now apply lang_digits].
Qed.

Lemma dev_groups (s : string) (m : Match) :
  re_match dev_pattern s = Some m ->
  exists maj,
    group m 2 = Some maj /\ is_number maj
    /\ (forall mi, group m 3 = Some mi -> is_number mi).
Proof.
  intros Hm.
  apply (re_match_sound
           (fun n w => (n = 2 \/ n = 3)%nat -> is_number w)) in Hm
    as (_ & _ & Hc & Hb).
  - destruct (Hb 2%nat eq_refl) as [maj Hmaj].
    exists maj. split; [assumption |].
    split; [apply (Hc 2%nat); [exact Hmaj | lia] |].
    intros mi Hmi. apply (Hc 3%nat); [exact Hmi | lia].
  - cbn. repeat match goal with |- _ /\ _ => split end;
      try exact I; intros w Hw Hn; first [lia | now apply lang_digits].
Qed.

Lemma release_resolves (s : string) (m : Match) :
  re_match release_pattern s = Some m ->
  exists code, pg_get_num_version s = Ok (group0 m, code).
Proof.
  intros Hm. unfold pg_get_num_version. rewrite Hm.
  destruct (release_groups s m Hm) as (maj & mi & -> & -> & Hmaj & Hmi & Hpa).
  cbn [as_str rbind].
  destruct (append_padded_number maj mi Hmaj Hmi) as (r1 & -> & Hr1).
  cbn [rbind].
  destruct (group m 4) as [pa |].
  - destruct (append_padded_number r1 pa Hr1 (Hpa pa eq_refl)) as (r2 & -> & Hr2).
    cbn [rbind]. rewrite (py_int_number r2 Hr2). cbn [rbind]. eauto.
  - cbn [rbind].
    rewrite (py_int_number (r1 +:+ "00")) by (now apply is_number_app_l).
    cbn [rbind]. eauto.
Qed.

Lemma dev_resolves (s : string) (m : Match) :
  re_match dev_pattern s = Some m ->
  exists code, pg_get_num_dev_version s = Ok (group0 m, code).
Proof.
  intros Hm. unfold pg_get_num_dev_version. rewrite Hm.
  destruct (dev_groups s m Hm) as (maj & -> & Hmaj & Hmi).
  cbn [as_str rbind].
  destruct (group m 3) as [mi |].
  - destruct (append_padded_number maj mi Hmaj (Hmi mi eq_refl)) as (r1 & -> & Hr1).
    cbn [rbind].
    rewrite (py_int_number (r1 +:+ "00")) by (now apply is_number_app_l).
    cbn [rbind]. eauto.
  - cbn [rbind].
    rewrite (py_int_number ((maj +:+ "00") +:+ "00"))
      by (apply is_number_app_l; [now apply is_number_app_l | reflexivity]).
    cbn [rbind]. eauto.
Qed.

(** ** Version resolution *)

Lemma release_match_iff (s : string) :
  is_Some (re_match release_pattern s) <-> begins_with release_form s.
Proof.
  rewrite re_match_iff. apply begins_with_ext, lang_release.
Qed.

Lemma dev_match_iff (s : string) :
  is_Some (re_match dev_pattern s) <-> begins_with dev_form s.
Proof.
  rewrite re_match_iff. apply begins_with_ext, lang_dev.
Qed.

Lemma no_release_match (s : string) :
  re_match release_pattern s = None ->
  pg_get_num_version s = pg_get_num_dev_version s.
Proof. intros H. unfold pg_get_num_version. now rewrite H. Qed.

(** C6. Resolution returns a short string and a code for every text that
    begins with the release form or with the development form, and raises
    the "Undefined PostgreSQL version" exception for every other text. *)
Theorem version_resolution_total (s : string) :
  (begins_with release_form s \/ begins_with dev_form s ->
   exists v code, pg_get_num_version s = Ok (v, code))
  /\ (~ begins_with release_form s -> ~ begins_with dev_form s ->
      pg_get_num_version s
      = Raise (Exception ("Undefined PostgreSQL version: " +:+ s))).
Proof.
  split.
  - intros Hform.
    destruct (re_match release_pattern s) as [m |] eqn:Hrel.
    + destruct (release_resolves s m Hrel) as [code Hcode]. eauto.
    + rewrite (no_release_match s Hrel).
      destruct Hform as [Hform | Hform].
      * apply release_match_iff in Hform. rewrite Hrel in Hform.
        now destruct Hform.
      * apply dev_match_iff in Hform as [m Hdev].
        destruct (dev_resolves s m Hdev) as [code Hcode]. eauto.
  - intros Hrel Hdev.
    rewrite <- release_match_iff in Hrel. rewrite <- dev_match_iff in Hdev.
    apply eq_None_not_Some in Hrel, Hdev.
    rewrite (no_release_match s Hrel).
    unfold pg_get_num_dev_version. now rewrite Hdev.
Qed.

Lemma version_resolution_total_witness :
  (exists v code, pg_get_num_version "PostgreSQL 9.6.3 on x86_64" = Ok (v, code))
  /\ (exists v code, pg_get_num_version "EnterpriseDB 14rc1" = Ok (v, code))
  /\ pg_get_num_version "MariaDB 10.5"
     = Raise (Exception "Undefined PostgreSQL version: MariaDB 10.5").
Proof.
  split; [| split].
  - apply (proj1 (version_resolution_total "PostgreSQL 9.6.3 on x86_64")).
    left. exists "PostgreSQL 9.6.3", " on x86_64". split; [reflexivity |].
    exists "PostgreSQL", "9", "6". repeat split; try discriminate.
    + now left.
    + right. exists "3". repeat split. discriminate.
  - apply (proj1 (version_resolution_total "EnterpriseDB 14rc1")).
    right. exists "EnterpriseDB 14rc1", EmptyString. split; [reflexivity |].
    exists "EnterpriseDB", "14", "rc1". repeat split; try discriminate.
    + now right.
    + right; right. exists "1". repeat split. discriminate.
    + now left.
  - apply (proj2 (version_resolution_total "MariaDB 10.5")).
    + intros H. apply release_match_iff in H. vm_compute in H. now destruct H.
    + intros H. apply dev_match_iff in H. vm_compute in H. now destruct H.
Defined.

Lemma release_encoding (s : string) (m : Match) (maj mi : string) :
  re_match release_pattern s = Some m ->
  group m 2 = Some maj -> group m 3 = Some mi ->
  small_numeral mi = true ->
  (forall pa, group m 4 = Some pa -> small_numeral pa = true) ->
  pg_get_num_version s
  = Ok (group0 m,
        numeral maj * 10000 + numeral mi * 100
        + from_option numeral 0 (group m 4)).
Proof.
  intros Hm H2 H3 Hmi Hpa. unfold pg_get_num_version. rewrite Hm.
  destruct (release_groups s m Hm) as (maj' & mi' & H2' & H3' & Hmaj & _ & _).
  rewrite H2 in H2'. injection H2' as <-. rewrite H2, H3.
  cbn [as_str rbind].
  destruct (append_padded_small maj mi Hmaj Hmi) as (r1 & -> & Hr1 & Hn1).
  cbn [rbind].
  destruct (group m 4) as [pa |]; cbn [from_option].
  - destruct (append_padded_small r1 pa Hr1 (Hpa pa eq_refl))
      as (r2 & -> & Hr2 & Hn2).
    cbn [rbind]. rewrite (py_int_number r2 Hr2). cbn [rbind].
    rewrite Hn2, Hn1. do 2 f_equal. lia.
  - cbn [rbind].
    rewrite (py_int_number (r1 +:+ "00")) by (now apply is_number_app_l).
    cbn [rbind]. rewrite numeral_app_00, Hn1. do 2 f_equal. lia.
Qed.

Lemma dev_encoding (s : string) (m : Match) (maj : string) :
  re_match dev_pattern s = Some m ->
  group m 2 = Some maj ->
  (forall mi, group m 3 = Some mi -> small_numeral mi = true) ->
  pg_get_num_dev_version s
  = Ok (group0 m,
        numeral maj * 10000 + from_option numeral 0 (group m 3) * 100).
Proof.
  intros Hm H2 Hmi. unfold pg_get_num_dev_version. rewrite Hm.
  destruct (dev_groups s m Hm) as (maj' & H2' & Hmaj & _).
  rewrite H2 in H2'. injection H2' as <-. rewrite H2.
  cbn [as_str rbind].
  destruct (group m 3) as [mi |]; cbn [from_option].
  - destruct (append_padded_small maj mi Hmaj (Hmi mi eq_refl))
      as (r1 & -> & Hr1 & Hn1).
    cbn [rbind].
    rewrite (py_int_number (r1 +:+ "00")) by (now apply is_number_app_l).
    cbn [rbind]. rewrite numeral_app_00, Hn1. do 2 f_equal. lia.
  - cbn [rbind].
    rewrite (py_int_number ((maj +:+ "00") +:+ "00"))
      by (apply is_number_app_l; [now apply is_number_app_l | reflexivity]).
    cbn [rbind]. rewrite !numeral_app_00. do 2 f_equal. lia.
Qed.

(** C5 (amended). When the minor and patch numbers of a matched text are
    written as numerals below 100 without a leading zero, the code is
    major*10000 + minor*100 + patch, the patch counting 0 when absent; a
    text that only the development pattern matches gets patch 0, and minor 0
    when absent.  The four sample texts resolve as listed; the last one is
    matched by the release pattern, which is tried first, so that its short
    string stops before [devel]. *)
Theorem version_encoding :
  (forall s m maj mi,
     re_match release_pattern s = Some m ->
     group m 2 = Some maj -> group m 3 = Some mi ->
     small_numeral mi = true ->
     (forall pa, group m 4 = Some pa -> small_numeral pa = true) ->
     pg_get_num_version s
     = Ok (group0 m,
           numeral maj * 10000 + numeral mi * 100
           + from_option numeral 0 (group m 4)))
  /\ (forall s m maj,
        re_match release_pattern s = None ->
        re_match dev_pattern s = Some m ->
        group m 2 = Some maj ->
        (forall mi, group m 3 = Some mi -> small_numeral mi = true) ->
        pg_get_num_version s
        = Ok (group0 m,
              numeral maj * 10000 + from_option numeral 0 (group m 3) * 100))
  /\ pg_get_num_version "PostgreSQL 11.9" = Ok ("PostgreSQL 11.9", 110900)
  /\ pg_get_num_version "EnterpriseDB 11.9 (Debian 11.9-0+deb10u1)"
     = Ok ("EnterpriseDB 11.9", 110900)
  /\ pg_get_num_version "PostgreSQL 13.0beta2" = Ok ("PostgreSQL 13.0", 130000)
  /\ pg_get_num_version "PostgreSQL 11.9devel0" = Ok ("PostgreSQL 11.9", 110900)
  /\ pg_get_num_dev_version "PostgreSQL 11.9devel0"
     = Ok ("PostgreSQL 11.9devel", 110900).
Proof.
  split; [exact release_encoding |].
  split.
  - intros s m maj Hrel Hdev H2 Hmi.
    rewrite (no_release_match s Hrel). now apply dev_encoding.
  - repeat split; vm_compute; reflexivity.
Qed.

Lemma version_encoding_witness :
  pg_get_num_version "PostgreSQL 9.6.24 on x86_64-pc-linux-gnu"
  = Ok ("PostgreSQL 9.6.24", 90624)
  /\ pg_get_num_version "PostgreSQL 14beta1 on x86_64" = Ok ("PostgreSQL 14beta1", 140000).
Proof.
  split.
  - refine (proj1 version_encoding "PostgreSQL 9.6.24 on x86_64-pc-linux-gnu"
              {| group0 := "PostgreSQL 9.6.24";
                 groups := <[4%nat := "24"]> (<[3%nat := "6"]> (<[2%nat := "9"]>
                             (<[1%nat := "PostgreSQL"]> ∅))) |}
              "9" "6" _ eq_refl eq_refl eq_refl _).
    + vm_compute. reflexivity.
    + intros pa Hpa. vm_compute in Hpa. injection Hpa as <-. reflexivity.
  - refine (proj1 (proj2 version_encoding) "PostgreSQL 14beta1 on x86_64"
              {| group0 := "PostgreSQL 14beta1";
                 groups := <[4%nat := "beta1"]> (<[2%nat := "14"]>
                             (<[1%nat := "PostgreSQL"]> ∅)) |}
              "14" _ _ eq_refl _).
    + vm_compute. reflexivity.
    + vm_compute. reflexivity.
    + intros mi Hmi. vm_compute in Hmi. discriminate.
Defined.

(** C5, as stated, fails on its last sample text: resolution stops at the
    release pattern and never reaches the development pattern. *)
Lemma resolve_devel_is_release :
  pg_get_num_version "PostgreSQL 11.9devel0" = Ok ("PostgreSQL 11.9", 110900)
  /\ pg_get_num_version "PostgreSQL 11.9devel0"
     <> Ok ("PostgreSQL 11.9devel", 110900).
Proof.
  split; [vm_compute; reflexivity |].
  vm_compute. discriminate.
Qed.

(** Without the condition on the numerals the code is not the weighted sum:
    a three-digit minor and a minor with a leading zero. *)
Example encoding_needs_small_numerals :
  pg_get_num_version "PostgreSQL 9.100" = Ok ("PostgreSQL 9.100", 910000)
  /\ pg_get_num_version "PostgreSQL 11.09" = Ok ("PostgreSQL 11.09", 1100900).
Proof. split; vm_compute; reflexivity. Qed.

(** ** Duration column *)

Lemma getitem_columns (i : Z) :
  0 <= i < 3 ->
  exists c, getitem ["query_start"; "xact_start"; "backend_start"]%string i = Ok c.
Proof.
  intros Hi.
  assert (i = 0 \/ i = 1 \/ i = 2) as [-> | [-> | ->]] by lia;
    eexists; reflexivity.
Qed.

(** C9. For every integer mode the duration column is [query_start] for 1,
    [xact_start] for 2, [backend_start] for 3 and [query_start] for any
    other value; the selector always returns. *)
Theorem get_duration_column_total (duration_mode : Z) :
  get_duration_column duration_mode =
    Ok (if duration_mode =? 2 then "xact_start"
        else if duration_mode =? 3 then "backend_start"
        else "query_start")
  /\ get_duration_column 1 = Ok "query_start"%string
  /\ get_duration_column 2 = Ok "xact_start"%string
  /\ get_duration_column 3 = Ok "backend_start"%string
  /\ get_duration_column 0 = Ok "query_start"%string
  /\ get_duration_column 9 = Ok "query_start"%string.
Proof.
  split; [| repeat split; reflexivity].
  unfold get_duration_column. cbn [existsb].
  destruct (Z.eqb_spec duration_mode 1) as [-> | H1]; [reflexivity |].
  destruct (Z.eqb_spec duration_mode 2) as [-> | H2]; [reflexivity |].
  destruct (Z.eqb_spec duration_mode 3) as [-> | H3]; reflexivity.
Qed.

(** ** Local connection *)

(** C10. The check answers true exactly when the server-side and the
    client-side addresses are equal; two absent addresses (a Unix-socket
    connection) are equal. *)
Theorem pg_is_local_iff_equal (server client : option string) :
  (pg_is_local (Ok (server, client)) = Ok true <-> server = client)
  /\ (pg_is_local (Ok (server, client)) = Ok false <-> server <> client)
  /\ pg_is_local (Ok (None, None)) = Ok true.
Proof.
  unfold pg_is_local. cbn [rbind].
  repeat split.
  - case_bool_decide; [done | discriminate].
  - intros ->. rewrite bool_decide_eq_true_2; done.
  - case_bool_decide; [discriminate | done].
  - intros Hne. rewrite bool_decide_eq_false_2; done.
Qed.

Lemma pg_is_local_iff_equal_witness :
  pg_is_local (Ok (Some "10.0.0.1", Some "10.0.0.1"))%string = Ok true
  /\ pg_is_local (Ok (Some "10.0.0.1", Some "10.0.0.7"))%string = Ok false.
Proof.
  split.
  - apply (proj1 (pg_is_local_iff_equal (Some "10.0.0.1") (Some "10.0.0.1"))%string).
    reflexivity.
  - apply (proj1 (proj2 (pg_is_local_iff_equal (Some "10.0.0.1") (Some "10.0.0.7"))%string)).
    discriminate.
Defined.

(** ** Query brackets *)

(** Case analysis along the chain of version tests. *)
Ltac by_brackets :=
  repeat match goal with
    | |- context [?a >=? ?b] => destruct (Z.geb_spec a b)
    | |- context [?a <? ?b] => destruct (Z.ltb_spec a b)
    end;
  first [reflexivity | lia | eexists; reflexivity].

Lemma bracket_bounds (b : Z) :
  b ∈ activity_brackets.*1 <->
  b = 110000 \/ b = 100000 \/ b = 90600 \/ b = 90200.
Proof.
  cbn. rewrite !elem_of_cons, elem_of_nil. tauto.
Qed.

(** C7. The activity query selected for a version is the variant of the
    greatest bracket bound not above it, and the legacy variant when the
    version is below every bound; 110000 selects the 110000 variant,
    109999 the 100000 variant and 90100 the legacy variant. *)
Theorem activities_query_greatest_bound (v : Z) :
  (forall b name, (b, name) ∈ activity_brackets ->
     greatest_bound_le b v -> activities_query v = Ok name)
  /\ ((forall b, b ∈ activity_brackets.*1 -> v < b) ->
      activities_query v = Ok legacy_activity_query)
  /\ (exists name, activities_query v = Ok name)
  /\ activities_query 110000 = Ok "get_pg_activity_post_110000"%string
  /\ activities_query 109999 = Ok "get_pg_activity_post_100000"%string
  /\ activities_query 90100 = Ok "get_pg_activity"%string.
Proof.
  split; [| split; [| split; [| repeat split; reflexivity]]].
  - intros b name Hin (_ & Hle & Hmax).
    assert (H1 : 110000 <= v -> 110000 <= b)
      by (apply Hmax, bracket_bounds; tauto).
    assert (H2 : 100000 <= v -> 100000 <= b)
      by (apply Hmax, bracket_bounds; tauto).
    assert (H3 : 90600 <= v -> 90600 <= b)
      by (apply Hmax, bracket_bounds; tauto).
    assert (H4 : 90200 <= v -> 90200 <= b)
      by (apply Hmax, bracket_bounds; tauto).
    clear Hmax.
    unfold activity_brackets in Hin.
    rewrite !elem_of_cons, elem_of_nil in Hin.
    unfold activities_query.
    destruct Hin as [Hin | [Hin | [Hin | [Hin | []]]]];
      injection Hin as -> ->; by_brackets.
  - intros Hlt.
    assert (H4 : v < 90200) by (apply Hlt, bracket_bounds; tauto).
    unfold activities_query. by_brackets.
  - unfold activities_query. by_brackets.
Qed.

Lemma activities_query_greatest_bound_witness :
  activities_query 95000 = Ok "get_pg_activity_post_90600"%string
  /\ activities_query 80400 = Ok legacy_activity_query.
Proof.
  split.
  - apply (proj1 (activities_query_greatest_bound 95000) 90600).
    + unfold activity_brackets. rewrite !elem_of_cons. tauto.
    + split; [apply bracket_bounds; tauto |].
      split; [lia |].
      intros b' Hb'. apply bracket_bounds in Hb'. lia.
  - apply (proj1 (proj2 (activities_query_greatest_bound 80400))).
    intros b Hb. apply bracket_bounds in Hb. lia.
Defined.

(** ** Rates *)

Lemma int_of_number_nonneg (q : Q) :
  (0 <= q)%Q -> int_of_number q = Qfloor q.
Proof.
  destruct q as [n d]. unfold Qle, int_of_number, Qfloor. cbn.
  intros Hn. apply Z.quot_div_nonneg; lia.
Qed.

Lemma int_of_number_nonpos (q : Q) :
  (q <= 0)%Q -> int_of_number q = Qceiling q.
Proof.
  destruct q as [n d]. unfold Qle, int_of_number, Qceiling, Qfloor. cbn.
  intros Hn.
  rewrite <- (Z.opp_involutive n) at 1.
  rewrite Z.quot_opp_l by lia.
  f_equal. apply Z.quot_div_nonneg; lia.
Qed.

(** *** Rounding to binary64 *)

Lemma round_half_even_cases (y : Q) :
  (round_half_even y = Qfloor y /\ (y - inject_Z (Qfloor y) <= 1 # 2)%Q)
  \/ (round_half_even y = Qfloor y + 1 /\ (1 # 2 <= y - inject_Z (Qfloor y))%Q).
Proof.
  unfold round_half_even.
  destruct (Qcompare_spec (y - inject_Z (Qfloor y)) (1 # 2)) as [H | H | H].
  - destruct (Z.even (Qfloor y)); [left | right]; split; trivial;
      rewrite H; apply Qle_refl.
  - left. split; [reflexivity | now apply Qlt_le_weak].
  - right. split; [reflexivity | now apply Qlt_le_weak].
Qed.

Lemma round_half_even_nonneg (y : Q) : (0 <= y)%Q -> 0 <= round_half_even y.
Proof.
  intros Hy. assert (H0 : 0 <= Qfloor y).
  { change 0 with (Qfloor 0). now apply Qfloor_resp_le. }
  destruct (round_half_even_cases y) as [[-> _] | [-> _]]; lia.
Qed.

Lemma round_half_even_nonpos (y : Q) : (y <= 0)%Q -> round_half_even y <= 0.
Proof.
  intros Hy. assert (Hfl := Qfloor_le y).
  destruct (round_half_even_cases y) as [[-> _] | [-> Hhalf]].
  - rewrite Zle_Qle. now apply Qle_trans with y.
  - assert (H : (inject_Z (Qfloor y) < inject_Z 0)%Q)
      by (change (inject_Z 0) with 0%Q; lra).
    rewrite <- Zlt_Qlt in H. lia.
Qed.

Lemma round_half_even_nonzero (y : Q) :
  (1 <= Qabs y)%Q -> round_half_even y <> 0.
Proof.
  intros Hy. assert (Hfl := Qfloor_le y).
  destruct (Qlt_le_dec y 0) as [Hneg | Hpos].
  - rewrite Qabs_neg in Hy by now apply Qlt_le_weak.
    assert (H : (inject_Z (Qfloor y) < inject_Z 0)%Q)
      by (change (inject_Z 0) with 0%Q; lra).
    rewrite <- Zlt_Qlt in H.
    destruct (round_half_even_cases y) as [[-> _] | [-> Hhalf]]; [lia |].
    assert (H' : (inject_Z (Qfloor y) < inject_Z (-1))%Q)
      by (change (inject_Z (-1)) with (-1 # 1)%Q; lra).
    rewrite <- Zlt_Qlt in H'. lia.
  - rewrite Qabs_pos in Hy by assumption.
    assert (H1 : 1 <= Qfloor y).
    { change 1 with (Qfloor 1). now apply Qfloor_resp_le. }
    destruct (round_half_even_cases y) as [[-> _] | [-> _]]; lia.
Qed.

Lemma two_power_pos (e : Z) : (0 < 2 ^ e)%Q.
Proof. now apply Qpower_0_lt. Qed.

Lemma binade_le (x : Q) : ~ (x == 0)%Q -> (2 ^ binade x <= Qabs x)%Q.
Proof.
  intros Hx. unfold binade.
  destruct (Qle_bool _ _) eqn:E; [now apply Qle_bool_iff |]. clear E.
  destruct x as [n d].
  assert (Hn : 0 < Z.abs n).
  { destruct n; [exfalso; apply Hx; reflexivity | |]; cbn; lia. }
  cbn [Qnum Qden Qabs].
  set (a := Z.log2 (Z.abs n)). set (b := Z.log2 (Z.pos d)).
  destruct (Z.log2_spec (Z.abs n) Hn) as [Ha _]. fold a in Ha.
  destruct (Z.log2_spec (Z.pos d) eq_refl) as [_ Hb]. fold b in Hb.
  assert (Ha0 : 0 <= a) by apply Z.log2_nonneg.
  assert (Hb0 : 0 <= b) by apply Z.log2_nonneg.
  replace (a - b - 1) with (a - Z.succ b) by lia.
  rewrite Qpower_minus by discriminate.
  change 2%Q with (inject_Z 2).
  rewrite <- !Zpower_Qpower by lia.
  assert (Hp : 0 < 2 ^ Z.succ b) by (apply Z.pow_pos_nonneg; lia).
  apply Qle_shift_div_r.
  - change 0%Q with (inject_Z 0). now rewrite <- Zlt_Qlt.
  - unfold Qle, Qmult, inject_Z. cbn [Qnum Qden].
    rewrite !Z.mul_1_r, Pos.mul_1_r. nia.
Qed.

Lemma scaled_ge_one (x : Q) :
  ~ (x == 0)%Q -> (1 <= Qabs (x * 2 ^ (- (binade x - 52))))%Q.
Proof.
  intros Hx. rewrite Qabs_Qmult.
  rewrite (Qabs_pos (2 ^ _)) by apply Qlt_le_weak, two_power_pos.
  apply Qle_trans with (2 ^ binade x * 2 ^ (- (binade x - 52)))%Q.
  - rewrite <- Qpower_plus by discriminate.
    replace (binade x + - (binade x - 52)) with 52 by lia.
    vm_compute. discriminate.
  - apply Qmult_le_compat_r; [now apply binade_le |].
    apply Qlt_le_weak, two_power_pos.
Qed.

Lemma round53_zero (x : Q) : (x == 0)%Q -> round53 x = 0%Q.
Proof. intros Hx. unfold round53. now rewrite (Qeq_eq_bool _ _ Hx). Qed.

Lemma round53_nonzero (x : Q) : ~ (x == 0)%Q -> ~ (round53 x == 0)%Q.
Proof.
  intros Hx. unfold round53.
  destruct (Qeq_bool x 0) eqn:E; [now apply Qeq_bool_eq in E |]. clear E.
  intros H. apply Qmult_integral in H. destruct H as [H | H].
  - apply (round_half_even_nonzero _ (scaled_ge_one x Hx)).
    change 0%Q with (inject_Z 0) in H.
    exact (proj1 (inject_Z_injective _ _) H).
  - pose proof (two_power_pos (binade x - 52)) as Hp. rewrite H in Hp.
    now apply Qlt_irrefl in Hp.
Qed.

Lemma round53_nonneg (x : Q) : (0 <= x)%Q -> (0 <= round53 x)%Q.
Proof.
  intros Hx. unfold round53.
  destruct (Qeq_bool x 0); [apply Qle_refl |].
  apply Qmult_le_0_compat; [| apply Qlt_le_weak, two_power_pos].
  change 0%Q with (inject_Z 0). rewrite <- Zle_Qle.
  apply round_half_even_nonneg.
  apply Qmult_le_0_compat; [assumption | apply Qlt_le_weak, two_power_pos].
Qed.

Lemma round53_nonpos (x : Q) : (x <= 0)%Q -> (round53 x <= 0)%Q.
Proof.
  intros Hx. unfold round53.
  destruct (Qeq_bool x 0); [apply Qle_refl |].
  set (p := (2 ^ (binade x - 52))%Q).
  assert (Hp : (0 < p)%Q) by apply two_power_pos.
  set (m := round_half_even _).
  assert (Hm : m <= 0).
  { apply round_half_even_nonpos.
    assert (Hq := two_power_pos (- (binade x - 52))). nra. }
  rewrite Zle_Qle in Hm. change (inject_Z 0) with 0%Q in Hm. nra.
Qed.

Lemma binade_lt (x : Q) : ~ (x == 0)%Q -> (Qabs x < 2 ^ (binade x + 1))%Q.
Proof.
  intros Hx. unfold binade.
  destruct (Qle_bool _ _) eqn:E.
  - clear E. destruct x as [n d].
    assert (Hn : 0 < Z.abs n).
    { destruct n; [exfalso; apply Hx; reflexivity | |]; cbn; lia. }
    cbn [Qnum Qden Qabs].
    set (a := Z.log2 (Z.abs n)). set (b := Z.log2 (Z.pos d)).
    destruct (Z.log2_spec (Z.abs n) Hn) as [_ Ha]. fold a in Ha.
    destruct (Z.log2_spec (Z.pos d) eq_refl) as [Hb _]. fold b in Hb.
    assert (Ha0 : 0 <= a) by apply Z.log2_nonneg.
    assert (Hb0 : 0 <= b) by apply Z.log2_nonneg.
    replace (a - b + 1) with (Z.succ a - b) by lia.
    rewrite Qpower_minus by discriminate.
    change 2%Q with (inject_Z 2).
    rewrite <- !Zpower_Qpower by lia.
    assert (Hp : 0 < 2 ^ b) by (apply Z.pow_pos_nonneg; lia).
    apply Qlt_shift_div_l.
    + change 0%Q with (inject_Z 0). now rewrite <- Zlt_Qlt.
    + unfold Qlt, Qmult, inject_Z. cbn [Qnum Qden].
      rewrite !Z.mul_1_r, Pos.mul_1_r. nia.
  - replace (_ - 1 + 1) with
      (Z.log2 (Z.abs (Qnum x)) - Z.log2 (Z.pos (Qden x))) by lia.
    apply Qnot_le_lt. intros H. apply Qle_bool_iff in H. congruence.
Qed.

Lemma round_half_even_bounded (y : Q) (n : Z) :
  (Qabs y <= inject_Z n)%Q -> Z.abs (round_half_even y) <= n.
Proof.
  intros Hy. apply Qabs_Qle_condition in Hy. destruct Hy as [Hlo Hhi].
  assert (Hfl := Qfloor_le y). assert (Hlf := Qlt_floor y).
  rewrite inject_Z_plus in Hlf. change (inject_Z 1) with 1%Q in Hlf.
  assert (H1 : (inject_Z (Qfloor y) <= inject_Z n)%Q) by lra.
  assert (H2 : (inject_Z (- n - 1) < inject_Z (Qfloor y))%Q).
  { unfold Z.sub. rewrite inject_Z_plus, inject_Z_opp.
    change (inject_Z (- (1))) with (- (1))%Q. lra. }
  rewrite <- Zle_Qle in H1. rewrite <- Zlt_Qlt in H2.
  destruct (round_half_even_cases y) as [[-> H] | [-> H]].
  - apply Z.abs_le. lia.
  - assert (H3 : (inject_Z (Qfloor y) < inject_Z n)%Q) by lra.
    rewrite <- Zlt_Qlt in H3. apply Z.abs_le. lia.
Qed.

(** A rounded number has a significand of at most 53 bits. *)
Lemma round53_significand (x : Q) :
  exists m e : Z,
    (round53 x == inject_Z m * 2 ^ e)%Q /\ Z.abs m <= 2 ^ 53.
Proof.
  destruct (Qeq_dec x 0) as [Hx | Hx].
  - exists 0, 0. rewrite (round53_zero x Hx). split; [reflexivity | lia].
  - unfold round53.
    destruct (Qeq_bool x 0) eqn:E; [now apply Qeq_bool_eq in E |]. clear E.
    eexists _, _. split; [reflexivity |].
    apply round_half_even_bounded.
    rewrite Qabs_Qmult.
    rewrite (Qabs_pos (2 ^ _)) by apply Qlt_le_weak, two_power_pos.
    apply Qle_trans with (2 ^ (binade x + 1) * 2 ^ (- (binade x - 52)))%Q.
    + apply Qmult_le_compat_r; [| apply Qlt_le_weak, two_power_pos].
      now apply Qlt_le_weak, binade_lt.
    + rewrite <- Qpower_plus by discriminate.
      replace (binade x + 1 + - (binade x - 52)) with 53 by lia.
      vm_compute. discriminate.
Qed.

(** *** Division and the rates *)

Lemma truediv_zero (a b : Q) :
  (b == 0)%Q -> truediv a b = Raise ZeroDivisionError.
Proof.
  intros Hb. unfold truediv. now rewrite (Qeq_eq_bool _ _ Hb).
Qed.

Lemma truediv_nonzero (a b : Q) :
  ~ (b == 0)%Q -> truediv a b = Ok (round53 (a / b)).
Proof.
  intros Hb. unfold truediv.
  destruct (Qeq_bool b 0) eqn:E; [| reflexivity].
  now apply Qeq_bool_eq in E.
Qed.

Lemma elapsed_zero (t t' : Q) : (t == t')%Q <-> (t - t' == 0)%Q.
Proof.
  split; intros H.
  - rewrite H. ring.
  - rewrite <- (Qplus_0_l t'), <- H. ring.
Qed.

(** The difference of two floats is zero exactly when they are equal. *)
Lemma float_sub_zero (t t' : Q) : (t == t')%Q -> (float_sub t t' == 0)%Q.
Proof.
  intros H. unfold float_sub.
  rewrite (round53_zero _ (proj1 (elapsed_zero _ _) H)). reflexivity.
Qed.

Lemma float_sub_nonzero (t t' : Q) :
  ~ (t == t')%Q -> ~ (float_sub t t' == 0)%Q.
Proof.
  intros H. apply round53_nonzero.
  intros H0. apply H, (proj2 (elapsed_zero _ _)), H0.
Qed.

(** C4. With no previous snapshot, and with a previous snapshot of the same
    timestamp whatever the counters, the rates are 0 and 0.0 and the call
    returns normally. *)
Theorem rates_zero_when_degenerate
    (fetchone : DbInfoParams -> Result DbInfoRow) (using_rds skip_sizes : bool)
    (row : DbInfoRow) :
  (fetchone (bound_params None using_rds skip_sizes) = Ok row ->
   pg_get_db_info fetchone None using_rds skip_sizes
   = Ok (snapshot row 0 0%Q))
  /\ (forall prev,
        fetchone (bound_params (Some prev) using_rds skip_sizes) = Ok row ->
        (row_timestamp row == timestamp prev)%Q ->
        pg_get_db_info fetchone (Some prev) using_rds skip_sizes
        = Ok (snapshot row 0 0%Q)).
Proof.
  split.
  - intros Hrow. unfold pg_get_db_info, bound_params in *.
    rewrite Hrow. reflexivity.
  - intros prev Hrow Hsame. unfold pg_get_db_info, bound_params in *.
    rewrite Hrow. cbn [rbind].
    rewrite truediv_zero by (apply float_sub_zero; assumption).
    reflexivity.
Qed.

(** C1 (amended). With a previous snapshot of a different timestamp, tps is
    the float quotient of the transaction delta by the elapsed time, as the
    binary64 division computes it from the delta converted to a float and
    the float difference of the timestamps, with its fractional part
    dropped: the floor of a computed quotient that is not negative, the
    ceiling of one that is not positive, and in all cases an integer
    between the two. *)
Theorem tps_truncated_quotient
    (fetchone : DbInfoParams -> Result DbInfoRow) (using_rds skip_sizes : bool)
    (prev : DbInfoDict) (row : DbInfoRow) :
  fetchone (bound_params (Some prev) using_rds skip_sizes) = Ok row ->
  ~ (row_timestamp row == timestamp prev)%Q ->
  let elapsed := float_sub (row_timestamp row) (timestamp prev) in
  let q := round53 (float_of_int (row_no_xact row - no_xact prev) / elapsed) in
  let g := round53 (float_of_int (row_total_size row - total_size prev)
                    / elapsed) in
  pg_get_db_info fetchone (Some prev) using_rds skip_sizes
  = Ok (snapshot row (int_of_number q) g)
  /\ ((0 <= q)%Q -> int_of_number q = Qfloor q)
  /\ ((q <= 0)%Q -> int_of_number q = Qceiling q)
  /\ Qfloor q <= int_of_number q <= Qceiling q.
Proof.
  intros Hrow Hdiff elapsed q g.
  assert (Hnz : ~ (elapsed == 0)%Q) by now apply float_sub_nonzero.
  split; [| split; [| split]].
  - unfold pg_get_db_info, bound_params in *.
    rewrite Hrow. cbn [rbind]. fold elapsed.
    rewrite !truediv_nonzero by assumption. reflexivity.
  - apply int_of_number_nonneg.
  - apply int_of_number_nonpos.
  - assert (Hfc : Qfloor q <= Qceiling q)
      by (rewrite Zle_Qle; apply Qle_floor_ceiling).
    destruct (Qlt_le_dec q 0) as [Hneg | Hpos].
    + rewrite int_of_number_nonpos by (now apply Qlt_le_weak). lia.
    + rewrite int_of_number_nonneg by assumption. lia.
Qed.

Lemma tps_truncated_quotient_witness :
  exists d,
    pg_get_db_info (fun _ => Ok (row_at 12 107 4096))
      (Some (snapshot (row_at 10 100 0) 0 0%Q)) false false = Ok d
    /\ tps d = 3 /\ (size_ev d == 2048)%Q.
Proof.
  eexists. split.
  - refine (proj1 (tps_truncated_quotient (fun _ => Ok (row_at 12 107 4096))
                     false false (snapshot (row_at 10 100 0) 0 0%Q)
                     (row_at 12 107 4096) eq_refl _)).
    vm_compute. discriminate.
  - split; reflexivity.
Defined.

Lemma rates_zero_when_degenerate_witness :
  pg_get_db_info (fun _ => Ok (row_at 12 107 4096)) None false false
  = Ok (snapshot (row_at 12 107 4096) 0 0%Q)
  /\ pg_get_db_info (fun _ => Ok (row_at 12 107 4096))
       (Some (snapshot (row_at 12 100 0) 0 0%Q)) false false
     = Ok (snapshot (row_at 12 107 4096) 0 0%Q).
Proof.
  split.
  - exact (proj1 (rates_zero_when_degenerate (fun _ => Ok (row_at 12 107 4096))
                    false false (row_at 12 107 4096)) eq_refl).
  - refine (proj2 (rates_zero_when_degenerate (fun _ => Ok (row_at 12 107 4096))
                     false false (row_at 12 107 4096))
                  (snapshot (row_at 12 100 0) 0 0%Q) eq_refl _).
    reflexivity.
Defined.

(** C1, as stated, fails on an out-of-order pair: five transactions fewer
    after two seconds give tps -2, while the floor of -5/2 is -3. *)
Lemma tps_not_floor :
  let prev := snapshot (row_at 0 5 0) 0 0%Q in
  let row := row_at 2 0 0 in
  ~ (row_timestamp row == timestamp prev)%Q
  /\ (d <- pg_get_db_info (fun _ => Ok row) (Some prev) false false ;;
      Ok (tps d)) = Ok (-2)
  /\ Qfloor (inject_Z (row_no_xact row - no_xact prev)
             / (row_timestamp row - timestamp prev)) = -3.
Proof.
  cbv zeta. split; [vm_compute; discriminate |].
  split; reflexivity.
Qed.

(** ** Reconnection *)

Lemma try_reconnect_raise (w : World) (self : ref) (this : Data) (e : exn) :
  objs w !! self = Some this ->
  connect_oracle w (length (log w)) (ConnKwargs (dsn_parameters this)) = Raise e ->
  try_reconnect self w
  = (if absorbed e then Ok None else Raise e,
     record_event (EvConnect (ConnKwargs (dsn_parameters this))) w).
Proof.
  intros Hself Hfail.
  unfold try_reconnect, mbind, deref, attempt, psycopg3_connect.
  rewrite Hself, Hfail.
  destruct e as [cls msg | | | | | | | | | ]; try reflexivity.
  cbn [absorbed].
  destruct (isinstance cls InterfaceError || isinstance cls OperationalError);
    reflexivity.
Qed.

(** C2 (amended). When the connection attempt of a reconnect fails with an
    [InterfaceError] or an [OperationalError] (its subclass
    [InvalidPassword] included), the call returns [None]; whatever the
    failure, no session object is changed or removed.  A failure of another
    kind is raised to the caller. *)
Theorem try_reconnect_failure (w : World) (self : ref) (this : Data) (e : exn) :
  objs w !! self = Some this ->
  connect_oracle w (length (log w)) (ConnKwargs (dsn_parameters this)) = Raise e ->
  (absorbed e = true -> (try_reconnect self w).1 = Ok None)
  /\ (absorbed e = false -> (try_reconnect self w).1 = Raise e)
  /\ objs (try_reconnect self w).2 = objs w
  /\ objs (try_reconnect self w).2 !! self = Some this.
Proof.
  intros Hself Hfail.
  rewrite (try_reconnect_raise w self this e Hself Hfail). cbn.
  repeat split; try assumption; intros ->; reflexivity.
Qed.

Lemma try_reconnect_failure_witness :
  let w := world (fun _ _ => Raise (PsyError OperationalError "server closed the connection"))
                 [session_11_9] in
  (try_reconnect 0%nat w).1 = Ok None
  /\ objs (try_reconnect 0%nat w).2 = [session_11_9].
Proof.
  cbv zeta.
  pose proof (try_reconnect_failure
    (world (fun _ _ => Raise (PsyError OperationalError "server closed the connection"))
           [session_11_9])
    0%nat session_11_9
    (PsyError OperationalError "server closed the connection")
    eq_refl eq_refl) as (Hnone & _ & Hobjs & _).
  split; [apply Hnone; reflexivity | exact Hobjs].
Defined.

(** C2, as stated, fails when the client raises an error outside the two
    handled classes: the error reaches the caller. *)
Lemma try_reconnect_propagates :
  let w := world (fun _ _ => Raise (PsyError Error "invalid connection option"))
                 [session_11_9] in
  objs w !! 0%nat = Some session_11_9
  /\ (try_reconnect 0%nat w).1 = Raise (PsyError Error "invalid connection option")
  /\ (try_reconnect 0%nat w).1 <> Ok None.
Proof.
  cbv zeta. split; [reflexivity |].
  split; [reflexivity | discriminate].
Qed.

(** C3 (amended). When the connection attempt of a reconnect succeeds, the
    call returns a new session object holding the new connection and the
    parameters that connection reports; its version string, numeric version
    and minimum duration are those of the old session, which is itself left
    as it was. *)
Theorem try_reconnect_success (w : World) (self : ref) (this : Data)
    (c : Connection) :
  objs w !! self = Some this ->
  connect_oracle w (length (log w)) (ConnKwargs (dsn_parameters this)) = Ok c ->
  let new := length (objs w) in
  (try_reconnect self w).1 = Ok (Some new)
  /\ objs (try_reconnect self w).2 !! self = Some this
  /\ objs (try_reconnect self w).2 !! new
     = Some {| pg_conn := c;
               pg_version := pg_version this;
               pg_num_version := pg_num_version this;
               min_duration := min_duration this;
               dsn_parameters := info_parameters c |}
  /\ new <> self.
Proof.
  intros Hself Hconn new.
  unfold try_reconnect, mbind, deref, attempt, psycopg3_connect, new_data, mret.
  rewrite Hself, Hconn. cbn.
  assert (self < length (objs w))%nat by (eapply lookup_lt_Some; eassumption).
  repeat split.
  - rewrite lookup_app_l by assumption. assumption.
  - rewrite lookup_app_r by reflexivity.
    replace (new - length (objs w))%nat with 0%nat by (subst new; lia).
    reflexivity.
  - subst new. lia.
Qed.

Lemma try_reconnect_success_witness :
  let w := world (fun _ _ => Ok (conn 1 "PostgreSQL 13.0")) [session_11_9] in
  (try_reconnect 0%nat w).1 = Ok (Some 1%nat)
  /\ objs (try_reconnect 0%nat w).2 !! 0%nat = Some session_11_9.
Proof.
  cbv zeta.
  pose proof (try_reconnect_success
    (world (fun _ _ => Ok (conn 1 "PostgreSQL 13.0")) [session_11_9])
    0%nat session_11_9 (conn 1 "PostgreSQL 13.0") eq_refl eq_refl)
    as (Hnew & Hold & _).
  split; [exact Hnew | exact Hold].
Defined.

(** C3, as stated, fails: after reconnecting to a server that reports
    13.0, the returned session still carries 11.9 and 110900. *)
Lemma try_reconnect_keeps_version :
  let c := conn 1 "PostgreSQL 13.0" in
  let w := world (fun _ _ => Ok c) [session_11_9] in
  rbind (version_row c) pg_get_num_version = Ok ("PostgreSQL 13.0"%string, 130000)
  /\ (try_reconnect 0%nat w).1 = Ok (Some 1%nat)
  /\ (fun d => (pg_version d, pg_num_version d))
       <$> objs (try_reconnect 0%nat w).2 !! 1%nat
     = Some ("PostgreSQL 11.9"%string, 110900).
Proof.
  cbv zeta. split; [vm_compute; reflexivity |].
  split; reflexivity.
Qed.

(** ** The connect wrapper *)

Lemma prompts_connect (l : list Event) (args : ConnectArgs) :
  prompts (l ++ [EvConnect args]) = prompts l.
Proof.
  unfold prompts. rewrite List.filter_app, length_app. cbn. lia.
Qed.

Lemma prompts_getpass (l : list Event) :
  prompts (l ++ [EvGetpass]) = S (prompts l).
Proof.
  unfold prompts. rewrite List.filter_app, length_app. cbn. lia.
Qed.

Lemma connects_connect (l : list Event) (args : ConnectArgs) :
  connects (l ++ [EvConnect args]) = S (connects l).
Proof.
  unfold connects. rewrite List.filter_app, length_app. cbn. lia.
Qed.

Lemma connects_getpass (l : list Event) :
  connects (l ++ [EvGetpass]) = connects l.
Proof.
  unfold connects. rewrite List.filter_app, length_app. cbn. lia.
Qed.

(** A connect sequence never prompts, and makes one or two attempts. *)
Lemma connect_once_log (options : Options) (dsn : string)
    (password : option string) (service : option string) (min_duration : Q)
    (w : World) :
  let w' := (connect_once options dsn password service min_duration w).2 in
  prompts (log w') = prompts (log w)
  /\ (connects (log w) < connects (log w') <= connects (log w) + 2)%nat.
Proof.
  unfold connect_once, Data_pg_connect, mbind, attempt, psycopg3_connect,
    lift, new_data, mret, raise, record_event.
  cbv zeta.
  repeat (case_match; simplify_eq/=);
    rewrite ?prompts_connect, ?connects_connect; split; lia.
Qed.

(** C8 (amended). The wrapper runs the connect sequence; only when that
    first run fails with [InvalidPassword] does it prompt, once, and run the
    sequence a second and last time with the password entered.  The outcome
    of the run it does not retry is surfaced like this: a session is
    returned; an [OperationalError] becomes [SystemExit] with the text
    [pg_activity: FATAL: ] followed by the cleaned message when
    [exit_on_failed] is set, and the fixed [Exception] "Could not connect to
    PostgreSQL" otherwise; any other exception is raised unchanged. *)
Theorem pg_connect_retry_policy (clean_str : string -> string)
    (options : Options) (dsn : string) (password : option string)
    (service : option string) (exit_on_failed : bool) (min_duration : Q)
    (w : World) :
  let first := connect_once options dsn password service min_duration w in
  let prompted := getpass_oracle first.2 (length (log first.2)) in
  let again := connect_once options dsn (Some prompted) service min_duration
                 (record_event EvGetpass first.2) in
  let final := pg_connect clean_str options dsn password service
                 exit_on_failed min_duration w in
  match first.1 with
  | Raise (PsyError InvalidPassword _) =>
      final = (surfaced clean_str exit_on_failed again.1, again.2)
      /\ prompts (log final.2) = S (prompts (log w))
      /\ (connects (log final.2) <= connects (log w) + 4)%nat
  | r =>
      final = (surfaced clean_str exit_on_failed r, first.2)
      /\ prompts (log final.2) = prompts (log w)
      /\ (connects (log final.2) <= connects (log w) + 2)%nat
  end.
Proof.
  intros first prompted again final.
  pose proof (connect_once_log options dsn password service min_duration w)
    as [Hp1 Hc1].
  pose proof (connect_once_log options dsn (Some prompted) service min_duration
                (record_event EvGetpass first.2)) as [Hp2 Hc2].
  cbv zeta in Hp1, Hc1, Hp2, Hc2. fold first in Hp1, Hc1. fold again in Hp2, Hc2.
  cbn [record_event log] in Hp2, Hc2.
  rewrite prompts_getpass in Hp2. rewrite connects_getpass in Hc2.
  assert (Hfinal : final =
    match first.1 with
    | Raise (PsyError InvalidPassword _) =>
        (surfaced clean_str exit_on_failed again.1, again.2)
    | r => (surfaced clean_str exit_on_failed r, first.2)
    end).
  { subst final. unfold pg_connect. cbn [pg_connect_loop].
    unfold mbind at 1 2. unfold attempt at 1.
    change (Data_pg_connect min_duration (host options) (port options)
              (username options) password (dbname options) (rds options)
              service dsn w) with first.
    destruct first as [r1 w1] eqn:E1. cbn [fst snd] in *.
    destruct r1 as [d | e]; [reflexivity |].
    destruct e as [cls msg | | | | | | | | | ]; try reflexivity.
    destruct cls; try reflexivity.
    - cbn [isinstance andb Z.ltb Z.compare surfaced].
      destruct exit_on_failed; reflexivity.
    - cbn [isinstance andb surfaced]. change (0 <? 1) with true. cbn [andb].
      unfold mbind at 1. unfold getpass at 1.
      unfold mbind at 1. unfold attempt at 1.
      change (Data_pg_connect min_duration (host options) (port options)
                (username options) (Some (getpass_oracle w1 (length (log w1))))
                (dbname options) (rds options) service dsn
                (record_event EvGetpass w1)) with again.
      destruct again as [r2 w2]. cbn [fst snd].
      destruct r2 as [d | e]; [reflexivity |].
      destruct e as [cls2 msg2 | | | | | | | | | ]; try reflexivity.
      destruct cls2; cbn [isinstance andb surfaced];
        try reflexivity; destruct exit_on_failed; reflexivity. }
  destruct first.1 as [d | e]; [rewrite Hfinal; cbn; repeat split; lia |].
  destruct e as [cls msg | | | | | | | | | ];
    try (rewrite Hfinal; cbn; repeat split; lia).
  destruct cls; rewrite Hfinal; cbn [fst snd]; repeat split; lia.
Qed.

Example pg_connect_prompts_once :
  let r := pg_connect drop_control tcp_options EmptyString None None true 0%Q
             (world password_server []) in
  r.1 = Ok 0%nat
  /\ log r.2 =
     [ EvConnect (ConnTcp "postgres" (Some "db.example.org"%string) 5432 "postgres" None);
       EvGetpass;
       EvConnect (ConnTcp "postgres" (Some "db.example.org"%string) 5432 "postgres"
                    (Some "secret"%string)) ]
  /\ (fun d => (pg_version d, pg_num_version d)) <$> objs r.2 !! 0%nat
     = Some ("PostgreSQL 11.9"%string, 110900).
Proof. vm_compute. repeat split; reflexivity. Qed.

Example pg_connect_exits_cleaned :
  (pg_connect drop_control tcp_options EmptyString None None true 0%Q
     (world (fun _ _ => Raise (PsyError OperationalError starting_up)) [])).1
  = Raise (SystemExit "pg_activity: FATAL:   the database system is starting up").
Proof. vm_compute. reflexivity. Qed.

(** C8, as stated, fails in two ways: with [exit_on_failed] unset an
    [OperationalError] is surfaced as a fixed message without the server's
    text, and an [InterfaceError] reaches the caller as it is, control
    characters included. *)
Lemma pg_connect_not_always_cleaned :
  let refused := PsyError OperationalError starting_up in
  let broken := PsyError InterfaceError starting_up in
  (pg_connect drop_control tcp_options EmptyString None None false 0%Q
     (world (fun _ _ => Raise refused) [])).1
  = Raise (Exception "Could not connect to PostgreSQL")
  /\ (pg_connect drop_control tcp_options EmptyString None None true 0%Q
        (world (fun _ _ => Raise broken) [])).1
     = Raise broken
  /\ Raise (A := ref) broken <> Raise (fatal drop_control true starting_up)
  /\ Raise (A := ref) (Exception "Could not connect to PostgreSQL")
     <> Raise (fatal drop_control true starting_up).
Proof.
  cbv zeta. repeat split; try (vm_compute; reflexivity); discriminate.
Qed.

(** * Further properties *)

(** ** Backends and snapshot queries *)

(** X1. On a server older than 8.4 terminating a backend is cancelling it:
    the same query is sent and the same answer returned; from 8.4 on the
    terminate query is sent. *)
Theorem terminate_falls_back_to_cancel
    (execute : string -> Z -> Result (option bool)) (self : Data) (pid : Z) :
  (pg_num_version self < 80400 ->
   pg_terminate_backend execute self pid = pg_cancel_backend execute self pid)
  /\ (80400 <= pg_num_version self ->
      pg_terminate_backend execute self pid
      = rbind (execute "do_pg_terminate_backend"%string pid)
              (fun x => Ok (truth x))).
Proof.
  unfold pg_terminate_backend, pg_cancel_backend. split; intros Hv.
  - destruct (Z.geb_spec (pg_num_version self) 80400); [lia | reflexivity].
  - destruct (Z.geb_spec (pg_num_version self) 80400); [reflexivity | lia].
Qed.

Lemma terminate_falls_back_to_cancel_witness :
  pg_terminate_backend cancel_only session_8_3 42 = Ok true.
Proof.
  rewrite (proj1 (terminate_falls_back_to_cancel cancel_only session_8_3 42))
    by (cbn; lia).
  reflexivity.
Defined.

Lemma get_duration_column_ok (duration_mode : Z) :
  exists col, get_duration_column duration_mode = Ok col.
Proof.
  unfold get_duration_column. cbn [existsb].
  destruct (Z.eqb_spec duration_mode 1) as [-> | H1]; [eexists; reflexivity |].
  destruct (Z.eqb_spec duration_mode 2) as [-> | H2]; [eexists; reflexivity |].
  destruct (Z.eqb_spec duration_mode 3) as [-> | H3]; eexists; reflexivity.
Qed.

(** X2. Whatever the version and the duration mode, the activity, waiting
    and blocking operations each select a query, substitute the same
    duration column, and agree on which servers are legacy: the one below
    9.2 gets the three unsuffixed queries, any other none of them. *)
Theorem snapshot_queries_agree (self : Data) (duration_mode : Z) :
  exists qa qw qb col,
    pg_get_activities self duration_mode = Ok (qa, col)
    /\ pg_get_waiting self duration_mode = Ok (qw, col)
    /\ pg_get_blocking self duration_mode = Ok (qb, col)
    /\ get_duration_column duration_mode = Ok col
    /\ (pg_num_version self < 90200 <-> qa = "get_pg_activity"%string)
    /\ (pg_num_version self < 90200 <-> qw = "get_waiting"%string)
    /\ (pg_num_version self < 90200 <-> qb = "get_blocking"%string).
Proof.
  unfold pg_get_activities, pg_get_waiting, pg_get_blocking,
    activities_query, waiting_query, blocking_query.
  destruct (get_duration_column_ok duration_mode) as [col Hcol].
  rewrite Hcol.
  repeat match goal with
    | |- context [?a >=? ?b] => destruct (Z.geb_spec a b)
    | |- context [?a <? ?b] => destruct (Z.ltb_spec a b)
    end; try lia;
    eexists _, _, _, col; cbn [rbind];
    (repeat split; try reflexivity; try lia; try discriminate).
Qed.

Lemma snapshot_queries_agree_witness :
  exists col,
    pg_get_activities session_8_3 2 = Ok ("get_pg_activity"%string, col)
    /\ pg_get_waiting session_8_3 2 = Ok ("get_waiting"%string, col).
Proof.
  destruct (snapshot_queries_agree session_8_3 2)
    as (qa & qw & qb & col & Ha & Hw & _ & _ & Hqa & Hqw & _).
  exists col.
  rewrite <- (proj1 Hqa) by (cbn; lia).
  rewrite <- (proj1 Hqw) by (cbn; lia).
  split; assumption.
Defined.

(** ** Local access *)

Lemma except_false_raise (body : Result bool) (e : exn) :
  except_false body = Raise e -> body = Raise e /\ is_exception e = false.
Proof.
  destruct body as [b | e']; cbn; [discriminate |].
  destruct (is_exception e') eqn:He; [discriminate |].
  intros H. injection H as <-. now split.
Qed.

Lemma except_false_true (body : Result bool) :
  except_false body = Ok true <-> body = Ok true.
Proof.
  destruct body as [b | e]; cbn; [tauto |].
  destruct (is_exception e); split; discriminate.
Qed.

Lemma probe_outcome (env : LocalProbe) :
  probe_succeeds env \/ exists e, probe_fails env e.
Proof.
  unfold probe_succeeds, probe_fails.
  destruct (pid_file_row env) as [pid_file | e] eqn:E1;
    [| right; exists e; now left].
  destruct (readlines env pid_file) as [[| line lines] | e] eqn:E2.
  - right. exists IndexError. right. exists pid_file.
    split; [reflexivity |]. right. left. now split.
  - destruct (process env line) as [proc | e] eqn:E3.
    + destruct (io_counters env proc) as [[] | e] eqn:E4.
      * destruct (cpu_times env proc) as [[] | e] eqn:E5.
        -- left. exists pid_file, lines, line, proc. now repeat split.
        -- right. exists e. right. exists pid_file.
           split; [reflexivity |]. right. right. exists line, lines.
           split; [assumption |]. right. exists proc.
           split; [assumption |]. right. now split.
      * right. exists e. right. exists pid_file.
        split; [reflexivity |]. right. right. exists line, lines.
        split; [assumption |]. right. exists proc.
        split; [assumption |]. now left.
    + right. exists e. right. exists pid_file.
      split; [reflexivity |]. right. right. exists line, lines.
      split; [assumption |]. now left.
  - right. exists e. right. exists pid_file.
    split; [reflexivity |]. now left.
Qed.

Lemma except_false_twice (e : exn) :
  except_false (except_false (Raise e))
  = if is_exception e then Ok false else Raise e.
Proof. cbn. destruct (is_exception e) eqn:He; cbn; now rewrite ?He. Qed.

Lemma probe_succeeds_result (env : LocalProbe) :
  probe_succeeds env -> pg_is_local_access env = Ok true.
Proof.
  intros (pid_file & lines & line & proc & H1 & H2 & H3 & H4 & H5).
  unfold pg_is_local_access.
  rewrite H1. cbn [rbind]. rewrite H2. cbn [rbind].
  change (getitem (line :: lines) 0) with (Ok (A := string) line).
  cbn [rbind]. rewrite H3. cbn [rbind]. rewrite H4. cbn [rbind].
  rewrite H5. reflexivity.
Qed.

Lemma probe_fails_result (env : LocalProbe) (e : exn) :
  probe_fails env e ->
  pg_is_local_access env = if is_exception e then Ok false else Raise e.
Proof.
  unfold probe_fails, pg_is_local_access.
  intros [H1 | (pid_file & H1 & [H2 | [[H2 ->] | (line & lines & H2 & H)]])].
  - rewrite H1. reflexivity.
  - rewrite H1. cbn [rbind]. rewrite H2. reflexivity.
  - rewrite H1. cbn [rbind]. rewrite H2. reflexivity.
  - rewrite H1. cbn [rbind]. rewrite H2. cbn [rbind].
    change (getitem (line :: lines) 0) with (Ok (A := string) line).
    cbn [rbind].
    destruct H as [H3 | (proc & H3 & [H4 | [H4 H5]])].
    + rewrite H3. apply except_false_twice.
    + rewrite H3. cbn [rbind]. rewrite H4. apply except_false_twice.
    + rewrite H3. cbn [rbind]. rewrite H4. cbn [rbind]. rewrite H5.
      apply except_false_twice.
Qed.

(** X3. The local-access probe answers true exactly when the PID file
    path is fetched, the file is read and has a first line, the process of
    that line is found and both of its counters are read.  When a step
    fails, the probe answers false if the exception of the first failing
    step derives from [Exception] (as [psutil.AccessDenied] and the
    [IndexError] of a file without lines do), and lets it through
    otherwise; so it answers false exactly when a step fails with such an
    exception, and never raises one. *)
Theorem pg_is_local_access_soft (env : LocalProbe) :
  (forall e, pg_is_local_access env = Raise e -> is_exception e = false)
  /\ (pg_is_local_access env = Ok true <->
      exists pid_file lines line proc,
        pid_file_row env = Ok pid_file
        /\ readlines env pid_file = Ok (line :: lines)
        /\ process env line = Ok proc
        /\ io_counters env proc = Ok tt
        /\ cpu_times env proc = Ok tt)
  /\ (forall e, probe_fails env e ->
        pg_is_local_access env
        = if is_exception e then Ok false else Raise e)
  /\ (pg_is_local_access env = Ok false <->
      exists e, probe_fails env e /\ is_exception e = true).
Proof.
  split; [| split; [| split]].
  - intros e He. unfold pg_is_local_access in He.
    now apply except_false_raise in He.
  - split; [| apply probe_succeeds_result].
    intros Htrue. destruct (probe_outcome env) as [Hs | (e & He)]; [exact Hs |].
    rewrite (probe_fails_result env e He) in Htrue.
    destruct (is_exception e); discriminate Htrue.
  - apply probe_fails_result.
  - split.
    + intros Hfalse. destruct (probe_outcome env) as [Hs | (e & He)].
      * rewrite (probe_succeeds_result env Hs) in Hfalse. discriminate Hfalse.
      * exists e. split; [exact He |].
        rewrite (probe_fails_result env e He) in Hfalse.
        destruct (is_exception e); [reflexivity | discriminate Hfalse].
    + intros (e & He & Hexc).
      rewrite (probe_fails_result env e He). now rewrite Hexc.
Qed.

Lemma pg_is_local_access_soft_witness :
  pg_is_local_access open_probe = Ok true
  /\ pg_is_local_access denied_probe = Ok false.
Proof.
  split.
  - apply (proj2 (proj1 (proj2 (pg_is_local_access_soft open_probe)))).
    exists "/var/lib/postgresql/postmaster.pid"%string,
      ["/var/lib/postgresql"%string], "4242"%string, 4242%nat.
    repeat split.
  - apply (proj2 (proj2 (proj2 (proj2 (pg_is_local_access_soft denied_probe))))).
    exists (Exception "psutil.AccessDenied"). split; [| reflexivity].
    right. exists "/var/lib/postgresql/postmaster.pid"%string.
    split; [reflexivity |]. right. right. exists "4242"%string, [].
    split; [reflexivity |]. right. exists 4242%nat.
    split; [reflexivity |]. now left.
Defined.

(** ** The package version *)

Lemma split_nonempty (sep : ascii) (s : string) : split sep s <> [].
Proof.
  destruct s as [| a s]; cbn; [discriminate |].
  destruct (Ascii.eqb a sep); [discriminate |].
  destruct (split sep s); discriminate.
Qed.

Lemma split_no_sep (sep : ascii) (s : string) :
  has_char sep s = false -> split sep s = [s].
Proof.
  induction s as [| a s IH]; cbn; [reflexivity |].
  intros H. apply orb_false_iff in H as [Ha Hs].
  rewrite Ha, (IH Hs). reflexivity.
Qed.

Lemma split_at_sep (sep : ascii) (a b : string) :
  has_char sep a = false ->
  split sep (a +:+ String sep b) = a :: split sep b.
Proof.
  induction a as [| x a IH]; intros H.
  - rewrite sapp_nil_l. cbn. now rewrite Ascii.eqb_refl.
  - cbn in H. apply orb_false_iff in H as [Hx Ha].
    rewrite sapp_cons. cbn. rewrite Hx, (IH Ha). reflexivity.
Qed.

Lemma getitem_second {A : Type} (a b : A) (t : list A) :
  getitem (a :: b :: t) 1 = Ok b.
Proof.
  unfold getitem. cbn [length Z.ltb Z.compare].
  change (0 <=? 1) with true. cbn [andb].
  destruct (Z.ltb_spec 1 (Z.of_nat (S (S (length t))))) as [_ | H]; [| lia].
  reflexivity.
Qed.

Lemma get_version_skips (fpath : string) (pre rest : list string) :
  Forall (fun l => startswith l "__version__" = false) pre ->
  get_version fpath (pre ++ rest) = get_version fpath rest.
Proof.
  induction 1 as [| l pre Hl _ IH]; [reflexivity |].
  cbn. now rewrite Hl.
Qed.

(** X4. The version is the text between the first two double quotes of the
    first line that starts with [__version__], whatever precedes that line
    and whatever follows the closing quote. *)
Theorem get_version_reads_quoted (fpath : string) (pre post : list string)
    (key v tail : string) :
  let line := key +:+ String dquote (v +:+ String dquote tail) in
  Forall (fun l => startswith l "__version__" = false) pre ->
  startswith line "__version__" = true ->
  has_char dquote key = false ->
  has_char dquote v = false ->
  get_version fpath (pre ++ line :: post) = Ok v.
Proof.
  intros line Hpre Hline Hkey Hv.
  rewrite (get_version_skips fpath pre _ Hpre). cbn [get_version].
  rewrite Hline. subst line.
  rewrite (split_at_sep dquote key _ Hkey), (split_at_sep dquote v _ Hv).
  apply getitem_second.
Qed.

Lemma get_version_reads_quoted_witness :
  get_version "pgactivity/__init__.py" init_lines = Ok "2.2.0"%string.
Proof.
  apply (get_version_reads_quoted "pgactivity/__init__.py"
           ["import sys"%string] ["# end"%string]
           "__version__ = " "2.2.0" EmptyString);
    [repeat constructor | reflexivity | reflexivity | reflexivity].
Defined.

(** X5. Without a line starting with [__version__] the "version
    information not found" exception is raised; a first such line without
    any double quote raises [IndexError] instead, whatever the later
    lines. *)
Theorem get_version_failures (fpath : string) (pre post : list string)
    (line : string) :
  Forall (fun l => startswith l "__version__" = false) pre ->
  get_version fpath pre
  = Raise (Exception ("version information not found in " +:+ fpath))
  /\ (startswith line "__version__" = true ->
      has_char dquote line = false ->
      get_version fpath (pre ++ line :: post) = Raise IndexError).
Proof.
  intros Hpre. split.
  - rewrite <- (app_nil_r pre) at 1.
    now rewrite (get_version_skips fpath pre [] Hpre).
  - intros Hline Hq.
    rewrite (get_version_skips fpath pre _ Hpre). cbn [get_version].
    rewrite Hline, (split_no_sep dquote line Hq). reflexivity.
Qed.

Lemma get_version_failures_witness :
  get_version "pgactivity/__init__.py" ["import sys"%string]
  = Raise (Exception "version information not found in pgactivity/__init__.py")
  /\ get_version "pgactivity/__init__.py"
       ["import sys"; "__version__ = 2"; init_lines !!! 1%nat]%string
     = Raise IndexError.
Proof.
  assert (Hpre : Forall (fun l => startswith l "__version__" = false)
                   ["import sys"%string]) by (repeat constructor).
  split.
  - exact (proj1 (get_version_failures "pgactivity/__init__.py"
                    ["import sys"%string] [] EmptyString Hpre)).
  - exact (proj2 (get_version_failures "pgactivity/__init__.py"
                    ["import sys"%string] [init_lines !!! 1%nat]
                    "__version__ = 2" Hpre) eq_refl eq_refl).
Defined.

(** ** More on version resolution *)

Lemma slength_app (a b : string) :
  String.length (a +:+ b) = (String.length a + String.length b)%nat.
Proof.
  induction a as [| x a IH]; [reflexivity |].
  rewrite sapp_cons. cbn. now rewrite IH.
Qed.

Lemma int_acc_linear (s : string) (acc : Z) :
  int_acc s acc = acc * 10 ^ Z.of_nat (String.length s) + int_acc s 0.
Proof.
  revert acc. induction s as [| a s IH]; intros acc.
  - cbn. lia.
  - cbn [int_acc String.length].
    rewrite (IH (10 * acc + digit_val a)), (IH (10 * 0 + digit_val a)).
    rewrite Nat2Z.inj_succ, Z.pow_succ_r by lia. lia.
Qed.

Lemma numeral_app (a b : string) :
  numeral (a +:+ b)
  = numeral a * 10 ^ Z.of_nat (String.length b) + numeral b.
Proof.
  unfold numeral. rewrite int_acc_app. apply int_acc_linear.
Qed.

Lemma int_acc_nonneg (s : string) (acc : Z) :
  0 <= acc -> all_digits s = true -> 0 <= int_acc s acc.
Proof.
  revert acc. induction s as [| a s IH]; intros acc Hacc Hd; [exact Hacc |].
  unfold all_digits in Hd. cbn in Hd. apply andb_true_iff in Hd as [Ha Hs].
  apply digit_bounds in Ha. cbn. apply IH; [lia | exact Hs].
Qed.

Lemma numeral_nonneg (s : string) : all_digits s = true -> 0 <= numeral s.
Proof. apply int_acc_nonneg. lia. Qed.

Lemma append_padded_shape (r g : string) :
  is_number g ->
  exists t, append_padded r g = Ok (r +:+ t)
            /\ all_digits t = true /\ (2 <= String.length t)%nat.
Proof.
  intros Hg. unfold append_padded.
  rewrite (py_int_number g Hg). cbn [rbind].
  destruct Hg as [Hne Hd].
  destruct (Z.ltb_spec (numeral g) 10) as [Hlt | Hge].
  - exists ("0" +:+ g). rewrite sapp_assoc. split; [reflexivity |].
    split; [exact Hd |].
    rewrite slength_app. destruct g; [contradiction | cbn; lia].
  - exists g. split; [reflexivity |]. split; [exact Hd |].
    destruct g as [| a [| b g]]; [contradiction | | cbn; lia].
    unfold all_digits in Hd. cbn in Hd. rewrite andb_true_r in Hd.
    apply digit_bounds in Hd. unfold numeral in Hge. cbn in Hge. lia.
Qed.

Lemma release_code (s : string) (m : Match) (maj : string) :
  re_match release_pattern s = Some m ->
  group m 2 = Some maj ->
  exists tail,
    all_digits tail = true /\ (4 <= String.length tail)%nat
    /\ is_number maj
    /\ pg_get_num_version s = Ok (group0 m, numeral (maj +:+ tail)).
Proof.
  intros Hm H2. unfold pg_get_num_version. rewrite Hm.
  destruct (release_groups s m Hm) as (maj' & mi & H2' & -> & Hmaj & Hmi & Hpa).
  rewrite H2 in H2'. injection H2' as <-. rewrite H2.
  cbn [as_str rbind].
  destruct (append_padded_shape maj mi Hmi) as (t1 & -> & Hd1 & Hl1).
  cbn [rbind].
  destruct (group m 4) as [pa |].
  - destruct (append_padded_shape (maj +:+ t1) pa (Hpa pa eq_refl))
      as (t2 & -> & Hd2 & Hl2).
    cbn [rbind]. exists (t1 +:+ t2). rewrite sapp_assoc.
    split; [now rewrite all_digits_app, Hd1, Hd2 |].
    split; [rewrite slength_app; lia |]. split; [assumption |].
    rewrite py_int_number; [reflexivity |].
    apply is_number_app_l; [assumption |].
    now rewrite all_digits_app, Hd1, Hd2.
  - cbn [rbind]. exists (t1 +:+ "00"). rewrite sapp_assoc.
    split; [now rewrite all_digits_app, Hd1 |].
    split; [rewrite slength_app; cbn; lia |]. split; [assumption |].
    rewrite py_int_number; [reflexivity |].
    apply is_number_app_l; [assumption |].
    now rewrite all_digits_app, Hd1.
Qed.

Lemma dev_code (s : string) (m : Match) (maj : string) :
  re_match dev_pattern s = Some m ->
  group m 2 = Some maj ->
  exists tail,
    all_digits tail = true /\ (4 <= String.length tail)%nat
    /\ is_number maj
    /\ pg_get_num_dev_version s = Ok (group0 m, numeral (maj +:+ tail)).
Proof.
  intros Hm H2. unfold pg_get_num_dev_version. rewrite Hm.
  destruct (dev_groups s m Hm) as (maj' & H2' & Hmaj & Hmi).
  rewrite H2 in H2'. injection H2' as <-. rewrite H2.
  cbn [as_str rbind].
  destruct (group m 3) as [mi |].
  - destruct (append_padded_shape maj mi (Hmi mi eq_refl))
      as (t1 & -> & Hd1 & Hl1).
    cbn [rbind]. exists (t1 +:+ "00"). rewrite sapp_assoc.
    split; [now rewrite all_digits_app, Hd1 |].
    split; [rewrite slength_app; cbn; lia |]. split; [assumption |].
    rewrite py_int_number; [reflexivity |].
    apply is_number_app_l; [assumption |].
    now rewrite all_digits_app, Hd1.
  - cbn [rbind]. exists "0000". rewrite sapp_assoc.
    split; [reflexivity |]. split; [cbn; lia |]. split; [assumption |].
    rewrite py_int_number; [reflexivity |].
    now apply is_number_app_l.
Qed.

Lemma numeral_shift (maj tail : string) :
  is_number maj -> all_digits tail = true ->
  (4 <= String.length tail)%nat ->
  numeral maj * 10000 <= numeral (maj +:+ tail).
Proof.
  intros [_ Hmaj] Htail Hlen. rewrite numeral_app.
  pose proof (numeral_nonneg maj Hmaj) as H0.
  pose proof (numeral_nonneg tail Htail) as H1.
  assert (10 ^ 4 <= 10 ^ Z.of_nat (String.length tail))
    by (apply Z.pow_le_mono_r; lia).
  change (10 ^ 4) with 10000 in *. nia.
Qed.

Lemma grp_ok_True (r : regex) : grp_ok (fun _ _ => True) r.
Proof. induction r; cbn; auto. Qed.

Lemma re_match_prefix (r : regex) (s : string) (m : Match) :
  re_match r s = Some m ->
  (exists rest, s = group0 m +:+ rest) /\ lang r (group0 m).
Proof.
  intros Hm.
  apply (re_match_sound (fun _ _ => True) r s m (grp_ok_True r)) in Hm.
  tauto.
Qed.

(** X6. Whenever resolution succeeds, the short string is a prefix of the
    text given, and it has the release form if the text begins with that
    form and the development form otherwise: the release pattern always
    wins. *)
Theorem resolved_version_shape (s v : string) (code : Z) :
  pg_get_num_version s = Ok (v, code) ->
  (exists rest, s = v +:+ rest)
  /\ (begins_with release_form s -> release_form v)
  /\ (~ begins_with release_form s -> dev_form v).
Proof.
  intros Hres.
  destruct (re_match release_pattern s) as [m |] eqn:Hrel.
  - destruct (release_resolves s m Hrel) as [c Hc].
    rewrite Hc in Hres. injection Hres as <- <-.
    destruct (re_match_prefix _ _ _ Hrel) as [Hpre Hlang].
    split; [exact Hpre |]. split.
    + intros _. now apply lang_release.
    + intros Hno. exfalso. apply Hno, release_match_iff.
      rewrite Hrel. eauto.
  - rewrite (no_release_match s Hrel) in Hres.
    destruct (re_match dev_pattern s) as [m |] eqn:Hdev.
    + destruct (dev_resolves s m Hdev) as [c Hc].
      rewrite Hc in Hres. injection Hres as <- <-.
      destruct (re_match_prefix _ _ _ Hdev) as [Hpre Hlang].
      split; [exact Hpre |]. split.
      * intros Hyes. apply release_match_iff in Hyes.
        rewrite Hrel in Hyes. now destruct Hyes.
      * intros _. now apply lang_dev.
    + unfold pg_get_num_dev_version in Hres. rewrite Hdev in Hres.
      discriminate Hres.
Qed.

Lemma resolved_version_shape_witness :
  exists rest, "PostgreSQL 12.4 (Ubuntu 12.4-1)"%string = "PostgreSQL 12.4" +:+ rest.
Proof.
  exact (proj1 (resolved_version_shape "PostgreSQL 12.4 (Ubuntu 12.4-1)"
                  "PostgreSQL 12.4" 120400 eq_refl)).
Defined.

(** X7. The code of a resolved text is at least its major number times
    10000, whatever the digits of minor and patch; so a server whose major
    number is 11 or more always gets the newest activity query. *)
Theorem resolved_code_at_least_major (s : string) (m : Match) (maj : string) :
  re_match release_pattern s = Some m
  \/ (re_match release_pattern s = None /\ re_match dev_pattern s = Some m) ->
  group m 2 = Some maj ->
  exists code,
    pg_get_num_version s = Ok (group0 m, code)
    /\ numeral maj * 10000 <= code
    /\ (11 <= numeral maj ->
        activities_query code = Ok "get_pg_activity_post_110000"%string).
Proof.
  intros Hm H2.
  assert (exists tail,
            all_digits tail = true /\ (4 <= String.length tail)%nat
            /\ is_number maj
            /\ pg_get_num_version s = Ok (group0 m, numeral (maj +:+ tail)))
    as (tail & Hd & Hl & Hmaj & Hres).
  { destruct Hm as [Hrel | [Hrel Hdev]].
    - now apply release_code.
    - rewrite (no_release_match s Hrel). now apply dev_code. }
  exists (numeral (maj +:+ tail)).
  pose proof (numeral_shift maj tail Hmaj Hd Hl) as Hge.
  split; [exact Hres |]. split; [exact Hge |].
  intros H11. unfold activities_query.
  destruct (Z.geb_spec (numeral (maj +:+ tail)) 110000); [reflexivity | lia].
Qed.

Lemma resolved_code_at_least_major_witness :
  exists code,
    pg_get_num_version "PostgreSQL 12.123.7" = Ok ("PostgreSQL 12.123.7"%string, code)
    /\ 120000 <= code.
Proof.
  destruct (resolved_code_at_least_major "PostgreSQL 12.123.7"
              {| group0 := "PostgreSQL 12.123.7";
                 groups := <[4%nat := "7"]> (<[3%nat := "123"]> (<[2%nat := "12"]>
                             (<[1%nat := "PostgreSQL"]> ∅))) |}
              "12" (or_introl eq_refl) eq_refl) as (code & Hres & Hge & _).
  exists code. split; [exact Hres | exact Hge].
Defined.

Lemma small_numeral_bounds (t : string) :
  small_numeral t = true -> 0 <= numeral t < 100.
Proof.
  destruct t as [| a [| b [| c t]]]; cbn; try discriminate.
  - intros Ha. apply digit_bounds in Ha. unfold numeral. cbn. lia.
  - rewrite !andb_true_iff. intros [[Ha Hb] _].
    apply digit_bounds in Ha, Hb. unfold numeral. cbn. lia.
Qed.

Lemma release_parts_code (s : string) (a b c : Z) :
  release_parts s (a, b, c) ->
  (exists v, pg_get_num_version s = Ok (v, a * 10000 + b * 100 + c))
  /\ 0 <= a /\ 0 <= b < 100 /\ 0 <= c < 100.
Proof.
  intros (m & maj & mi & Hm & H2 & H3 & Hmi & Hpa & Hp).
  injection Hp as -> -> ->.
  split; [eexists; now apply release_encoding |].
  destruct (release_groups s m Hm) as (maj' & _ & H2' & _ & [_ Hmaj] & _).
  rewrite H2 in H2'. injection H2' as <-.
  split; [now apply numeral_nonneg |].
  split; [now apply small_numeral_bounds |].
  destruct (group m 4) as [pa |]; cbn [from_option]; [| lia].
  now apply small_numeral_bounds, Hpa.
Qed.

(** X8. Among the texts the release pattern matches with minor and patch
    written as numerals below 100 without a leading zero, the codes are
    ordered as the releases are: one code is smaller than another exactly
    when its (major, minor, patch) comes first, and equal codes mean equal
    numbers. *)
Theorem release_codes_ordered (s1 s2 : string) (p1 p2 : Z * Z * Z) :
  release_parts s1 p1 -> release_parts s2 p2 ->
  exists v1 c1 v2 c2,
    pg_get_num_version s1 = Ok (v1, c1)
    /\ pg_get_num_version s2 = Ok (v2, c2)
    /\ (c1 < c2 <-> release_lt p1 p2)
    /\ (c1 = c2 <-> p1 = p2).
Proof.
  destruct p1 as [[a1 b1] d1], p2 as [[a2 b2] d2]. intros H1 H2.
  apply release_parts_code in H1 as ([v1 Hv1] & Ha1 & Hb1 & Hd1).
  apply release_parts_code in H2 as ([v2 Hv2] & Ha2 & Hb2 & Hd2).
  exists v1, (a1 * 10000 + b1 * 100 + d1), v2, (a2 * 10000 + b2 * 100 + d2).
  split; [exact Hv1 |]. split; [exact Hv2 |]. split.
  - unfold release_lt. lia.
  - split; [intros Heq | intros Heq; injection Heq as -> -> ->; reflexivity].
    assert (a1 = a2) by lia. assert (b1 = b2) by lia.
    assert (d1 = d2) by lia. now subst.
Qed.

Lemma release_codes_ordered_witness :
  exists c1 c2,
    pg_get_num_version "PostgreSQL 9.6.24" = Ok ("PostgreSQL 9.6.24"%string, c1)
    /\ pg_get_num_version "PostgreSQL 10.1 on x86_64"
       = Ok ("PostgreSQL 10.1"%string, c2)
    /\ c1 < c2.
Proof.
  assert (H1 : release_parts "PostgreSQL 9.6.24" (9, 6, 24)).
  { exists {| group0 := "PostgreSQL 9.6.24";
              groups := <[4%nat := "24"]> (<[3%nat := "6"]> (<[2%nat := "9"]>
                          (<[1%nat := "PostgreSQL"]> ∅))) |}, "9"%string, "6"%string.
    split; [vm_compute; reflexivity |]. do 3 (split; [reflexivity |]).
    split; [| reflexivity].
    intros pa Hpa. vm_compute in Hpa. injection Hpa as <-. reflexivity. }
  assert (H2 : release_parts "PostgreSQL 10.1 on x86_64" (10, 1, 0)).
  { exists {| group0 := "PostgreSQL 10.1";
              groups := <[3%nat := "1"]> (<[2%nat := "10"]>
                          (<[1%nat := "PostgreSQL"]> ∅)) |}, "10"%string, "1"%string.
    split; [vm_compute; reflexivity |]. do 3 (split; [reflexivity |]).
    split; [| reflexivity].
    intros pa Hpa. vm_compute in Hpa. discriminate Hpa. }
  destruct (release_codes_ordered _ _ _ _ H1 H2)
    as (v1 & c1 & v2 & c2 & Hv1 & Hv2 & Hlt & _).
  exists c1, c2.
  assert (E1 : v1 = "PostgreSQL 9.6.24"%string).
  { vm_compute in Hv1. now injection Hv1 as <- _. }
  assert (E2 : v2 = "PostgreSQL 10.1"%string).
  { vm_compute in Hv2. now injection Hv2 as <- _. }
  subst v1 v2.
  split; [exact Hv1 |]. split; [exact Hv2 |].
  apply Hlt. cbn. lia.
Defined.

(** ** Running the engine on a text of known shape *)

Section Stepping.
Context {R : Type}.

Lemma run_seq (r1 r2 : regex) (s : string) (c : captures)
    (k : string -> string -> captures -> option R) :
  run (Seq r1 r2) s c k
  = run r1 s c (fun w1 s1 c1 =>
      run r2 s1 c1 (fun w2 s2 c2 => k (w1 +:+ w2) s2 c2)).
Proof. reflexivity. Qed.

Lemma run_grp (n : nat) (r : regex) (s : string) (c : captures)
    (k : string -> string -> captures -> option R) :
  run (Grp n r) s c k = run r s c (fun w rest c' => k w rest (<[n := w]> c')).
Proof. reflexivity. Qed.

Lemma run_lit_app (l s : string) (c : captures)
    (k : string -> string -> captures -> option R) :
  run (Lit l) (l +:+ s) c k = k l s c.
Proof. cbn. now rewrite strip_prefix_app. Qed.

Lemma many_stop (lo hi : ascii) (rest : string)
    (k : string -> string -> option R) :
  head_out lo hi rest = true -> many lo hi rest k = k EmptyString rest.
Proof.
  destruct rest as [| a rest]; [reflexivity |]. cbn.
  intros H. apply negb_true_iff in H. now rewrite H.
Qed.

Lemma many_greedy (lo hi : ascii) (w rest : string)
    (k : string -> string -> option R) (x : R) :
  all_in_range lo hi w = true -> head_out lo hi rest = true ->
  k w rest = Some x -> many lo hi (w +:+ rest) k = Some x.
Proof.
  revert k. induction w as [| a w IH]; intros k Hw Hrest Hk.
  - rewrite sapp_nil_l, many_stop by assumption. exact Hk.
  - cbn in Hw. apply andb_true_iff in Hw as [Ha Hw].
    rewrite sapp_cons. cbn. rewrite Ha.
    now rewrite (IH (fun w' r => k (String a w') r) Hw Hrest Hk).
Qed.

Lemma run_cls_greedy (lo hi : ascii) (w rest : string) (c : captures)
    (k : string -> string -> captures -> option R) (x : R) :
  w <> EmptyString -> all_in_range lo hi w = true ->
  head_out lo hi rest = true ->
  k w rest c = Some x -> run (Cls lo hi) (w +:+ rest) c k = Some x.
Proof.
  intros Hne Hw Hrest Hk. destruct w as [| a w]; [contradiction |].
  cbn in Hw. apply andb_true_iff in Hw as [Ha Hw].
  rewrite sapp_cons. cbn. rewrite Ha.
  now apply (many_greedy lo hi w rest (fun w' r => k (String a w') r c)).
Qed.

Lemma run_alt_l (r1 r2 : regex) (s : string) (c : captures)
    (k : string -> string -> captures -> option R) (x : R) :
  run r1 s c k = Some x -> run (Alt r1 r2) s c k = Some x.
Proof. intros H. cbn. now rewrite H. Qed.

Lemma run_alt_r (r1 r2 : regex) (s : string) (c : captures)
    (k : string -> string -> captures -> option R) :
  run r1 s c k = None -> run (Alt r1 r2) s c k = run r2 s c k.
Proof. intros H. cbn. now rewrite H. Qed.

Lemma run_opt_some (r : regex) (s : string) (c : captures)
    (k : string -> string -> captures -> option R) (x : R) :
  run r s c k = Some x -> run (Opt r) s c k = Some x.
Proof. intros H. cbn. now rewrite H. Qed.

Lemma run_opt_none (r : regex) (s : string) (c : captures)
    (k : string -> string -> captures -> option R) :
  run r s c k = None -> run (Opt r) s c k = k EmptyString s c.
Proof. intros H. cbn. now rewrite H. Qed.

(** No patch number starts where [stops] holds. *)
Lemma no_patch_here (rest : string) (c : captures)
    (k : string -> string -> captures -> option R) :
  stops rest = true ->
  run (NGrp (Lit "." ;;; Grp 4 digits))%re rest c k = None.
Proof.
  unfold digits.
  destruct rest as [| a rest]; [reflexivity |]. cbn [stops].
  rewrite andb_true_iff, orb_true_iff. intros [_ [Hdot | Hnext]].
  - cbn [run strip_prefix]. apply negb_true_iff in Hdot.
    rewrite Ascii.eqb_sym in Hdot. now rewrite Hdot.
  - cbn [run strip_prefix]. destruct (Ascii.eqb "." a); [| reflexivity].
    destruct rest as [| b rest]; [reflexivity |].
    apply negb_true_iff in Hnext. unfold is_digit in Hnext.
    now rewrite Hnext.
Qed.
End Stepping.

Lemma stops_no_digit (rest : string) :
  stops rest = true -> head_out "0" "9" rest = true.
Proof.
  destruct rest as [| a rest]; [reflexivity |]. cbn.
  rewrite andb_true_iff. now intros [H _].
Qed.

Lemma run_product {R : Type} (p s : string) (c : captures)
    (k : string -> string -> captures -> option R) (x : R) :
  is_product p ->
  k p s (<[1%nat := p]> c) = Some x ->
  run (Grp 1 (Lit "PostgreSQL" |+| Lit "EnterpriseDB"))%re (p +:+ s) c k = Some x.
Proof.
  intros [-> | ->] Hk; cbn [run].
  - rewrite strip_prefix_app. now rewrite Hk.
  - change (strip_prefix "PostgreSQL" ("EnterpriseDB" +:+ s)) with (@None string).
    now rewrite strip_prefix_app.
Qed.

(** The match of a text made of a product, a major and a minor number and
    something that cannot continue the version. *)
Lemma release_match_plain (p maj mi rest : string) :
  is_product p -> is_number maj -> is_number mi -> stops rest = true ->
  re_match release_pattern (p +:+ " " +:+ maj +:+ "." +:+ mi +:+ rest)
  = Some {| group0 := p +:+ " " +:+ maj +:+ "." +:+ mi;
            groups := <[3%nat := mi]> (<[2%nat := maj]>
                        (<[1%nat := p]> ∅)) |}.
Proof.
  intros Hp [Hmaj1 Hmaj2] [Hmi1 Hmi2] Hrest.
  unfold re_match, release_pattern, digits.
  rewrite run_seq. apply run_product; [assumption |].
  rewrite run_seq, run_lit_app. cbv beta.
  rewrite run_seq, run_grp.
  apply run_cls_greedy; [assumption | assumption | reflexivity |].
  rewrite run_seq, run_lit_app. cbv beta.
  rewrite run_seq, run_grp.
  apply run_cls_greedy; [assumption | assumption | now apply stops_no_digit |].
  rewrite run_opt_none by (now apply no_patch_here).
  now rewrite !sapp_nil_r.
Qed.

Lemma release_match_patch (p maj mi pa rest : string) :
  is_product p -> is_number maj -> is_number mi -> is_number pa ->
  no_digit_next rest = true ->
  re_match release_pattern
    (p +:+ " " +:+ maj +:+ "." +:+ mi +:+ "." +:+ pa +:+ rest)
  = Some {| group0 := p +:+ " " +:+ maj +:+ "." +:+ mi +:+ "." +:+ pa;
            groups := <[4%nat := pa]> (<[3%nat := mi]> (<[2%nat := maj]>
                        (<[1%nat := p]> ∅))) |}.
Proof.
  intros Hp [Hmaj1 Hmaj2] [Hmi1 Hmi2] [Hpa1 Hpa2] Hrest.
  unfold re_match, release_pattern, digits.
  rewrite run_seq. apply run_product; [assumption |].
  rewrite run_seq, run_lit_app. cbv beta.
  rewrite run_seq, run_grp.
  apply run_cls_greedy; [assumption | assumption | reflexivity |].
  rewrite run_seq, run_lit_app. cbv beta.
  rewrite run_seq, run_grp.
  apply run_cls_greedy; [assumption | assumption | reflexivity |].
  apply run_opt_some.
  change (run (NGrp ?r) ?s ?c ?k) with (run r s c k).
  rewrite run_seq, run_lit_app. cbv beta. rewrite run_grp.
  apply run_cls_greedy; [assumption | assumption | assumption |].
  reflexivity.
Qed.

Lemma same_match_same_version (s1 s2 : string) (m : Match) :
  re_match release_pattern s1 = Some m ->
  re_match release_pattern s2 = Some m ->
  exists code,
    pg_get_num_version s1 = Ok (group0 m, code)
    /\ pg_get_num_version s2 = Ok (group0 m, code).
Proof.
  intros H1 H2. destruct (release_resolves s1 m H1) as [code Hcode].
  exists code. split; [exact Hcode |].
  unfold pg_get_num_version in *. rewrite H1 in Hcode. now rewrite H2.
Qed.

(** X9. What follows the version number is ignored: a product, a major
    and a minor number followed by text that starts neither with a digit
    nor with a dot and a digit resolve as they do alone, and so do a
    product and three numbers followed by text that does not start with a
    digit; the short string is the text up to the last number. *)
Theorem trailing_text_ignored (p maj mi rest : string) :
  is_product p -> is_number maj -> is_number mi ->
  let v := p +:+ " " +:+ maj +:+ "." +:+ mi in
  (stops rest = true ->
   exists code,
     pg_get_num_version (v +:+ rest) = Ok (v, code)
     /\ pg_get_num_version v = Ok (v, code))
  /\ (forall pa, is_number pa -> no_digit_next rest = true ->
      exists code,
        pg_get_num_version ((v +:+ "." +:+ pa) +:+ rest)
        = Ok (v +:+ "." +:+ pa, code)
        /\ pg_get_num_version (v +:+ "." +:+ pa) = Ok (v +:+ "." +:+ pa, code)).
Proof.
  intros Hp Hmaj Hmi v. split.
  - intros Hrest.
    pose proof (release_match_plain p maj mi rest Hp Hmaj Hmi Hrest) as H1.
    pose proof (release_match_plain p maj mi EmptyString Hp Hmaj Hmi eq_refl)
      as H2.
    rewrite sapp_nil_r in H2.
    subst v. rewrite !sapp_assoc.
    exact (same_match_same_version _ _ _ H1 H2).
  - intros pa Hpa Hrest.
    pose proof (release_match_patch p maj mi pa rest Hp Hmaj Hmi Hpa Hrest)
      as H1.
    pose proof (release_match_patch p maj mi pa EmptyString Hp Hmaj Hmi Hpa
                  eq_refl) as H2.
    rewrite sapp_nil_r in H2.
    subst v. rewrite !sapp_assoc.
    exact (same_match_same_version _ _ _ H1 H2).
Qed.

Lemma trailing_text_ignored_witness :
  exists code,
    pg_get_num_version "PostgreSQL 12.4 (Ubuntu 12.4-1.pgdg18.04+1)"
    = Ok ("PostgreSQL 12.4"%string, code)
    /\ pg_get_num_version "PostgreSQL 12.4" = Ok ("PostgreSQL 12.4"%string, code).
Proof.
  refine (proj1 (trailing_text_ignored "PostgreSQL" "12" "4"
                   " (Ubuntu 12.4-1.pgdg18.04+1)" _ _ _) eq_refl).
  - now left.
  - split; [discriminate | reflexivity].
  - split; [discriminate | reflexivity].
Defined.

Lemma major_of_code (s : string) (major : Z) :
  major_of s major ->
  exists v code,
    pg_get_num_version s = Ok (v, code)
    /\ major * 10000 <= code < (major + 1) * 10000.
Proof.
  intros (m & maj & H2 & -> & [(Hrel & Hmi & Hpa) | (Hrel & Hdev & Hmi)]).
  - destruct (release_groups s m Hrel) as (maj' & mi & _ & H3 & _).
    rewrite (release_encoding s m maj mi Hrel H2 H3 (Hmi mi H3) Hpa).
    eexists _, _. split; [reflexivity |].
    pose proof (small_numeral_bounds mi (Hmi mi H3)) as Hb.
    destruct (group m 4) as [pa |]; cbn [from_option]; [| lia].
    pose proof (small_numeral_bounds pa (Hpa pa eq_refl)). lia.
  - rewrite (no_release_match s Hrel).
    rewrite (dev_encoding s m maj Hdev H2 Hmi).
    eexists _, _. split; [reflexivity |].
    destruct (group m 3) as [mi |]; cbn [from_option]; [| lia].
    pose proof (small_numeral_bounds mi (Hmi mi eq_refl)). lia.
Qed.

(** X18. Release and development texts are ordered by their major
    numbers: when minor and patch are numerals below 100 without a leading
    zero, the code lies from major*10000 up to, but not reaching,
    (major+1)*10000, so a text of a smaller major number has the smaller
    code whichever pattern matches either text. *)
Theorem codes_ordered_by_major (s1 s2 : string) (major1 major2 : Z) :
  major_of s1 major1 -> major_of s2 major2 -> major1 < major2 ->
  exists v1 c1 v2 c2,
    pg_get_num_version s1 = Ok (v1, c1)
    /\ pg_get_num_version s2 = Ok (v2, c2)
    /\ c1 < major2 * 10000 <= c2.
Proof.
  intros H1 H2 Hlt.
  apply major_of_code in H1 as (v1 & c1 & Hv1 & Hc1).
  apply major_of_code in H2 as (v2 & c2 & Hv2 & Hc2).
  exists v1, c1, v2, c2. split; [exact Hv1 |]. split; [exact Hv2 |]. lia.
Qed.

Lemma codes_ordered_by_major_witness :
  exists c1 c2,
    pg_get_num_version "PostgreSQL 11.9" = Ok ("PostgreSQL 11.9"%string, c1)
    /\ pg_get_num_version "PostgreSQL 13beta2" = Ok ("PostgreSQL 13beta2"%string, c2)
    /\ c1 < c2.
Proof.
  assert (H1 : major_of "PostgreSQL 11.9" 11).
  { exists {| group0 := "PostgreSQL 11.9";
              groups := <[3%nat := "9"]> (<[2%nat := "11"]>
                          (<[1%nat := "PostgreSQL"]> ∅)) |}, "11"%string.
    split; [reflexivity |]. split; [reflexivity |]. left.
    split; [vm_compute; reflexivity |]. split.
    - intros mi Hmi. vm_compute in Hmi. injection Hmi as <-. reflexivity.
    - intros pa Hpa. vm_compute in Hpa. discriminate Hpa. }
  assert (H2 : major_of "PostgreSQL 13beta2" 13).
  { exists {| group0 := "PostgreSQL 13beta2";
              groups := <[4%nat := "beta2"]> (<[2%nat := "13"]>
                          (<[1%nat := "PostgreSQL"]> ∅)) |}, "13"%string.
    split; [reflexivity |]. split; [reflexivity |]. right.
    split; [vm_compute; reflexivity |].
    split; [vm_compute; reflexivity |].
    intros mi Hmi. vm_compute in Hmi. discriminate Hmi. }
  destruct (codes_ordered_by_major _ _ 11 13 H1 H2) as
    (v1 & c1 & v2 & c2 & Hv1 & Hv2 & Hlt); [lia |].
  exists c1, c2.
  assert (E1 : v1 = "PostgreSQL 11.9"%string).
  { vm_compute in Hv1. now injection Hv1 as <- _. }
  assert (E2 : v2 = "PostgreSQL 13beta2"%string).
  { vm_compute in Hv2. now injection Hv2 as <- _. }
  subst v1 v2. split; [exact Hv1 |]. split; [exact Hv2 |]. lia.
Defined.

(** ** More on connecting *)

Lemma result_of_lift {A : Type} (r : Result A) (w : World) :
  lift r w = (r, w).
Proof. reflexivity. Qed.

Lemma Data_pg_connect_log (min_dur : Q) (host : option string) (port : Z)
    (user : string) (password : option string) (database : string)
    (rds_mode : bool) (service : option string) (dsn : string) (w : World) :
  log (Data_pg_connect min_dur host port user password database rds_mode
         service dsn w).2
  = (log w ++ map EvConnect
       (attempts_of host
          (connect_oracle w (length (log w))
             (socket_args service dsn database user port password))
          service dsn database user port password))%list.
Proof.
  unfold Data_pg_connect, attempts_of, socket_args, tcp_args, mbind, attempt,
    psycopg3_connect, lift, new_data, mret, raise, record_event.
  repeat (case_match; simplify_eq/=); rewrite <- ?app_assoc; reflexivity.
Qed.

(** X10. One run of the connect sequence makes these attempts and no
    other: without a host, a single attempt without a host, whose failure
    is final; for [localhost], an attempt without a host and, only when
    that raises a client error, a second one naming the host; for any
    other host, a single attempt naming it.  A service name, else a
    connection string, replaces the discrete parameters in every
    attempt. *)
Theorem connection_attempts (min_dur : Q) (host : option string) (port : Z)
    (user : string) (password : option string) (database : string)
    (rds_mode : bool) (service : option string) (dsn : string) (w : World) :
  let first :=
    connect_oracle w (length (log w))
      (socket_args service dsn database user port password) in
  log (Data_pg_connect min_dur host port user password database rds_mode
         service dsn w).2
  = (log w ++ map EvConnect
                (attempts_of host first service dsn database user port password))%list
  /\ (host = None -> forall e, first = Raise e ->
      (Data_pg_connect min_dur host port user password database rds_mode
         service dsn w).1 = Raise e).
Proof.
  cbv zeta. split; [apply Data_pg_connect_log |].
  intros -> e He.
  unfold Data_pg_connect, socket_args, mbind, attempt, psycopg3_connect in *.
  cbn [socket_first]. rewrite He.
  destruct e; reflexivity.
Qed.

Lemma connection_attempts_witness :
  (Data_pg_connect 0%Q None 5432 "postgres" None "postgres" false None
     EmptyString
     (world (fun _ _ => Raise (PsyError OperationalError starting_up)) [])).1
  = Raise (PsyError OperationalError starting_up).
Proof.
  exact (proj2 (connection_attempts 0%Q None 5432 "postgres" None "postgres"
                  false None EmptyString
                  (world (fun _ _ => Raise (PsyError OperationalError starting_up)) []))
               eq_refl _ eq_refl).
Defined.

Lemma Data_pg_connect_store (min_dur : Q) (host : option string) (port : Z)
    (user : string) (password : option string) (database : string)
    (rds_mode : bool) (service : option string) (dsn : string) (w : World) :
  let out := Data_pg_connect min_dur host port user password database
               rds_mode service dsn w in
  match out.1 with
  | Ok new =>
      new = length (objs w)
      /\ exists d, objs out.2 = (objs w ++ [d])%list
                   /\ fresh_session rds_mode min_dur d
  | Raise _ => objs out.2 = objs w
  end.
Proof.
  cbv zeta.
  unfold Data_pg_connect, mbind, attempt, psycopg3_connect, lift, new_data,
    mret, raise, record_event, fresh_session.
  repeat (case_match; simplify_eq/=); try reflexivity.
  all: split; [reflexivity |]; eexists; (split; [reflexivity |]); cbn.
  all: repeat split; try assumption; try discriminate.
  all: intros ->; try discriminate.
  all: match goal with
       | H : negb (String.eqb ?v "on") = false, H' : _ = Ok (Some ?v) |- _ =>
           apply negb_false_iff, String.eqb_eq in H; subst v; exact H'
       end.
Qed.

Lemma pg_connect_outcome (clean_str : string -> string) (options : Options)
    (dsn : string) (password : option string) (service : option string)
    (exit_on_failed : bool) (min_dur : Q) (w : World) :
  let first := connect_once options dsn password service min_dur w in
  pg_connect clean_str options dsn password service exit_on_failed min_dur w
  = match first.1 with
    | Raise (PsyError InvalidPassword _) =>
        let again :=
          connect_once options dsn
            (Some (getpass_oracle first.2 (length (log first.2)))) service
            min_dur (record_event EvGetpass first.2) in
        (surfaced clean_str exit_on_failed again.1, again.2)
    | r => (surfaced clean_str exit_on_failed r, first.2)
    end.
Proof.
  intros first. unfold pg_connect. cbn [pg_connect_loop].
  unfold mbind at 1 2. unfold attempt at 1.
  change (Data_pg_connect min_dur (host options) (port options)
            (username options) password (dbname options) (rds options)
            service dsn w) with first.
  destruct first as [r1 w1]. cbn [fst snd].
  destruct r1 as [d | e]; [reflexivity |].
  destruct e as [cls msg | | | | | | | | | ]; try reflexivity.
  destruct cls; try reflexivity.
  - cbn [isinstance andb Z.ltb Z.compare surfaced].
    destruct exit_on_failed; reflexivity.
  - cbn [isinstance andb surfaced]. change (0 <? 1) with true. cbn [andb].
    unfold mbind at 1. unfold getpass at 1.
    unfold mbind at 1. unfold attempt at 1. cbv zeta.
    change (Data_pg_connect min_dur (host options) (port options)
              (username options) (Some (getpass_oracle w1 (length (log w1))))
              (dbname options) (rds options) service dsn
              (record_event EvGetpass w1))
      with (connect_once options dsn
              (Some (getpass_oracle w1 (length (log w1)))) service min_dur
              (record_event EvGetpass w1)).
    destruct (connect_once options dsn
                (Some (getpass_oracle w1 (length (log w1)))) service min_dur
                (record_event EvGetpass w1)) as [r2 w2]. cbn [fst snd].
    destruct r2 as [d | e]; [reflexivity |].
    destruct e as [cls2 msg2 | | | | | | | | | ]; try reflexivity.
    destruct cls2; cbn [isinstance andb surfaced];
      try reflexivity; destruct exit_on_failed; reflexivity.
Qed.

(** X11. Connecting creates a session or changes nothing in the store,
    for one run of the connect sequence and for the wrapper alike: on
    success exactly one object is added, the one returned, holding the
    version resolved from what its connection reports, the parameters that
    connection reports and the minimum duration given, over a connection
    that is superuser unless the check is disabled; on any failure, also
    when a first run failed and was retried, no object is added. *)
Theorem connect_all_or_nothing (clean_str : string -> string)
    (options : Options) (dsn : string) (password : option string)
    (service : option string) (exit_on_failed : bool) (min_dur : Q)
    (w : World) :
  let once := connect_once options dsn password service min_dur w in
  let out := pg_connect clean_str options dsn password service
               exit_on_failed min_dur w in
  match once.1 with
  | Ok new =>
      new = length (objs w)
      /\ exists d, objs once.2 = (objs w ++ [d])%list
                   /\ fresh_session (rds options) min_dur d
  | Raise _ => objs once.2 = objs w
  end
  /\ match out.1 with
     | Ok new =>
         new = length (objs w)
         /\ exists d, objs out.2 = (objs w ++ [d])%list
                      /\ fresh_session (rds options) min_dur d
     | Raise _ => objs out.2 = objs w
     end.
Proof.
  intros once out.
  pose proof (Data_pg_connect_store min_dur (host options) (port options)
                (username options) password (dbname options) (rds options)
                service dsn w) as H1.
  cbv zeta in H1. fold (connect_once options dsn password service min_dur w) in H1.
  fold once in H1. split; [exact H1 |].
  subst out. rewrite pg_connect_outcome. cbv zeta. fold once.
  set (again := connect_once options dsn
                  (Some (getpass_oracle once.2 (length (log once.2)))) service
                  min_dur (record_event EvGetpass once.2)).
  pose proof (Data_pg_connect_store min_dur (host options) (port options)
                (username options)
                (Some (getpass_oracle once.2 (length (log once.2))))
                (dbname options) (rds options) service dsn
                (record_event EvGetpass once.2)) as H2.
  cbv zeta in H2.
  fold (connect_once options dsn
          (Some (getpass_oracle once.2 (length (log once.2)))) service min_dur
          (record_event EvGetpass once.2)) in H2.
  fold again in H2. cbn [record_event objs] in H2.
  assert (Hsurf : forall (r : Result ref) (w' : World),
            match r with
            | Ok new =>
                new = length (objs w)
                /\ exists d, objs w' = (objs w ++ [d])%list
                             /\ fresh_session (rds options) min_dur d
            | Raise _ => objs w' = objs w
            end ->
            match surfaced clean_str exit_on_failed r with
            | Ok new =>
                new = length (objs w)
                /\ exists d, objs w' = (objs w ++ [d])%list
                             /\ fresh_session (rds options) min_dur d
            | Raise _ => objs w' = objs w
            end).
  { intros r w' Hr. destruct r as [d | e]; [exact Hr |].
    destruct e as [cls msg | | | | | | | | | ]; try exact Hr.
    destruct cls; exact Hr. }
  destruct once.1 as [d | e] eqn:E1; [now apply (Hsurf (Ok d)) |].
  destruct e as [cls msg | | | | | | | | | ];
    try (cbn [fst snd]; now apply (Hsurf (Raise _))).
  destruct cls; try (cbn [fst snd]; now apply (Hsurf (Raise _))).
  cbn [fst snd]. apply Hsurf. rewrite H1 in H2. exact H2.
Qed.

Lemma connect_all_or_nothing_witness :
  objs (pg_connect drop_control tcp_options EmptyString None None true 0%Q
          (world password_server [session_11_9])).2
  = [session_11_9;
     {| pg_conn := conn 2 "PostgreSQL 11.9";
        pg_version := "PostgreSQL 11.9";
        pg_num_version := 110900;
        min_duration := 0%Q;
        dsn_parameters := {[ "dbname"%string := "postgres"%string ]} |}]
  /\ objs (pg_connect drop_control tcp_options EmptyString None None true 0%Q
             (world (fun _ _ => Raise (PsyError OperationalError starting_up))
                    [session_11_9])).2
     = [session_11_9].
Proof.
  split.
  - destruct (proj2 (connect_all_or_nothing drop_control tcp_options EmptyString
                       None None true 0%Q (world password_server [session_11_9])))
      as (_ & d & Hobjs & _).
    rewrite Hobjs. vm_compute in Hobjs. now injection Hobjs as <-.
  - exact (proj2 (connect_all_or_nothing drop_control tcp_options EmptyString
                    None None true 0%Q
                    (world (fun _ _ => Raise (PsyError OperationalError starting_up))
                           [session_11_9]))).
Defined.

Lemma attempts_fixed (host : option string) (first : Result Connection)
    (service : option string) (dsn database user : string) (port : Z)
    (password : option string) (a : ConnectArgs) :
  fixed_args service dsn = Some a ->
  Forall (fun e => e = EvGetpass \/ e = EvConnect a)
    (map EvConnect
       (attempts_of host first service dsn database user port password)).
Proof.
  intros Hfix.
  assert (Hs : socket_args service dsn database user port password = a).
  { unfold fixed_args, socket_args in *. destruct service; [congruence |].
    destruct (truthy dsn); congruence. }
  assert (Ht : tcp_args service dsn database host port user password = a).
  { unfold fixed_args, tcp_args in *. destruct service; [congruence |].
    destruct (truthy dsn); congruence. }
  unfold attempts_of. rewrite Hs, Ht.
  repeat case_match; cbn [map];
    repeat (constructor; [right; reflexivity |]); constructor.
Qed.

(** X12. With a service name, or else a connection string, every
    connection attempt of the wrapper is made with that name, or that
    string, alone: the password given and the one entered at the prompt
    never reach the client, and the retry after an invalid password
    repeats the first attempt. *)
Theorem fixed_arguments_ignore_password (clean_str : string -> string)
    (options : Options) (dsn : string) (password : option string)
    (service : option string) (exit_on_failed : bool) (min_dur : Q)
    (w : World) (a : ConnectArgs) :
  fixed_args service dsn = Some a ->
  exists events,
    log (pg_connect clean_str options dsn password service exit_on_failed
           min_dur w).2 = (log w ++ events)%list
    /\ Forall (fun e => e = EvGetpass \/ e = EvConnect a) events.
Proof.
  intros Hfix. rewrite pg_connect_outcome. cbv zeta.
  set (once := connect_once options dsn password service min_dur w).
  assert (H1 : exists ev1, log once.2 = (log w ++ ev1)%list
                /\ Forall (fun e => e = EvGetpass \/ e = EvConnect a) ev1).
  { eexists. split; [subst once; unfold connect_once; apply Data_pg_connect_log |].
    now apply attempts_fixed. }
  destruct H1 as (ev1 & Hlog1 & Hev1).
  set (again := connect_once options dsn
                  (Some (getpass_oracle once.2 (length (log once.2)))) service
                  min_dur (record_event EvGetpass once.2)).
  assert (H2 : exists ev2, log again.2 = (log w ++ ev1 ++ EvGetpass :: ev2)%list
                /\ Forall (fun e => e = EvGetpass \/ e = EvConnect a) ev2).
  { eexists. split.
    - subst again. unfold connect_once. rewrite Data_pg_connect_log.
      cbn [record_event log]. rewrite Hlog1.
      rewrite <- !app_assoc. reflexivity.
    - now apply attempts_fixed. }
  destruct H2 as (ev2 & Hlog2 & Hev2).
  assert (Hfirst : exists events,
            log once.2 = (log w ++ events)%list
            /\ Forall (fun e => e = EvGetpass \/ e = EvConnect a) events)
    by eauto.
  assert (Hagain : exists events,
            log again.2 = (log w ++ events)%list
            /\ Forall (fun e => e = EvGetpass \/ e = EvConnect a) events).
  { exists (ev1 ++ EvGetpass :: ev2)%list. split; [exact Hlog2 |].
    apply Forall_app. split; [exact Hev1 |]. constructor; auto. }
  destruct once.1 as [d | e]; [exact Hfirst |].
  destruct e as [cls msg | | | | | | | | | ]; try exact Hfirst.
  destruct cls; first [exact Hfirst | exact Hagain].
Qed.

Lemma fixed_arguments_ignore_password_witness :
  exists events,
    log (pg_connect drop_control tcp_options EmptyString (Some "wrong"%string)
           (Some "prod"%string) true 0%Q (world password_server [])).2
    = events
    /\ Forall (fun e => e = EvGetpass \/ e = EvConnect (ConnService "prod"))
         events.
Proof.
  destruct (fixed_arguments_ignore_password drop_control tcp_options EmptyString
              (Some "wrong"%string) (Some "prod"%string) true 0%Q
              (world password_server []) (ConnService "prod") eq_refl)
    as (events & Hlog & Hall).
  exists events. split; [exact Hlog | exact Hall].
Defined.

Lemma unresolved_version (text : string) :
  ~ begins_with release_form text -> ~ begins_with dev_form text ->
  pg_get_num_version text
  = Raise (Exception ("Undefined PostgreSQL version: " +:+ text)).
Proof.
  intros Hrel Hdev.
  rewrite <- release_match_iff in Hrel. rewrite <- dev_match_iff in Hdev.
  apply eq_None_not_Some in Hrel, Hdev.
  rewrite (no_release_match text Hrel).
  unfold pg_get_num_dev_version. now rewrite Hdev.
Qed.

(** X13. Connecting to a named remote host: when the attempt succeeds but
    the role is not superuser and the check is enabled, the wrapper raises
    "Must be run with database superuser privileges."; when the check
    passes or is disabled but the version text begins with neither the
    release nor the development form, it raises "Undefined PostgreSQL
    version".  Either way it is raised as it is, whatever
    [exit_on_failed], after that single attempt, without a prompt and
    without a session. *)
Theorem pg_connect_fatal_checks (clean_str : string -> string)
    (options : Options) (dsn : string) (password : option string)
    (service : option string) (exit_on_failed : bool) (min_dur : Q)
    (w : World) (c : Connection) :
  let args := tcp_args service dsn (dbname options) (host options)
                (port options) (username options) password in
  let out := pg_connect clean_str options dsn password service
               exit_on_failed min_dur w in
  socket_first (host options) = false ->
  connect_oracle w (length (log w)) args = Ok c ->
  (rds options = false ->
   forall v, is_superuser_row c = Ok (Some v) -> v <> "on"%string ->
     out = (Raise (Exception "Must be run with database superuser privileges."),
            record_event (EvConnect args) w))
  /\ (rds options = true \/ is_superuser_row c = Ok (Some "on"%string) ->
      forall text, version_row c = Ok text ->
        ~ begins_with release_form text -> ~ begins_with dev_form text ->
        out = (Raise (Exception ("Undefined PostgreSQL version: " +:+ text)),
               record_event (EvConnect args) w)).
Proof.
  intros args out Hhost Hconn. subst out. rewrite pg_connect_outcome.
  cbv zeta. unfold connect_once, Data_pg_connect.
  rewrite Hhost. unfold mbind, mret, psycopg3_connect, lift, raise.
  fold (tcp_args service dsn (dbname options) (host options) (port options)
          (username options) password).
  fold args. rewrite Hconn. split.
  - intros Hrds v Hsu Hv. rewrite Hrds, Hsu. cbn [negb].
    apply String.eqb_neq in Hv. rewrite Hv. reflexivity.
  - intros Hcheck text Htext Hrel Hdev.
    rewrite Htext. cbn [rbind].
    rewrite (unresolved_version text Hrel Hdev).
    destruct Hcheck as [-> | ->]; [reflexivity |].
    destruct (rds options); reflexivity.
Qed.

Lemma pg_connect_fatal_checks_witness :
  (pg_connect drop_control tcp_options EmptyString None None true 0%Q
     (world (fun n _ => Ok (conn n "MariaDB 10.5")) [])).1
  = Raise (Exception "Undefined PostgreSQL version: MariaDB 10.5").
Proof.
  refine (f_equal fst
            (proj2 (pg_connect_fatal_checks drop_control tcp_options EmptyString
                      None None true 0%Q
                      (world (fun n _ => Ok (conn n "MariaDB 10.5")) [])
                      (conn 0 "MariaDB 10.5") eq_refl eq_refl)
                   (or_intror eq_refl) "MariaDB 10.5"%string eq_refl _ _)).
  - intros H. apply release_match_iff in H. vm_compute in H. now destruct H.
  - intros H. apply dev_match_iff in H. vm_compute in H. now destruct H.
Defined.

(** ** More on reconnecting *)

(** X14. A reconnect from an existing session makes exactly one connection
    attempt, with the parameters stored in that session, and never
    prompts; the session it returns stores the parameters the new
    connection reports, so that the next reconnect from it uses those. *)
Theorem try_reconnect_attempts (w : World) (self : ref) (this : Data) :
  objs w !! self = Some this ->
  let out := try_reconnect self w in
  log out.2 = (log w ++ [EvConnect (ConnKwargs (dsn_parameters this))])%list
  /\ forall new, out.1 = Ok (Some new) ->
       exists d c,
         objs out.2 !! new = Some d
         /\ pg_conn d = c /\ dsn_parameters d = info_parameters c
         /\ log (try_reconnect new out.2).2
            = (log out.2 ++ [EvConnect (ConnKwargs (info_parameters c))])%list.
Proof.
  intros Hself out.
  assert (Hlog : forall w0 r d0, objs w0 !! r = Some d0 ->
            log (try_reconnect r w0).2
            = (log w0 ++ [EvConnect (ConnKwargs (dsn_parameters d0))])%list).
  { intros w0 r d0 Hr.
    unfold try_reconnect, mbind, deref, attempt, psycopg3_connect, new_data,
      mret, raise.
    rewrite Hr.
    destruct (connect_oracle w0 (length (log w0))
                (ConnKwargs (dsn_parameters d0))) as [c | e]; [reflexivity |].
    destruct e as [cls msg | | | | | | | | | ]; try reflexivity.
    destruct (isinstance cls InterfaceError || isinstance cls OperationalError);
      reflexivity. }
  split; [now apply Hlog |].
  intros new Hnew. subst out.
  destruct (connect_oracle w (length (log w))
              (ConnKwargs (dsn_parameters this))) as [c | e] eqn:Hc.
  - assert (Hnewobj :
      (try_reconnect self w).1 = Ok (Some (length (objs w)))
      /\ objs (try_reconnect self w).2 !! length (objs w)
         = Some (evolve this c (info_parameters c))).
    { unfold try_reconnect, mbind, deref, attempt, psycopg3_connect, new_data,
        mret.
      rewrite Hself, Hc. cbn. split; [reflexivity |].
      rewrite lookup_app_r by reflexivity.
      now rewrite Nat.sub_diag. }
    destruct Hnewobj as [Hres Hobj]. rewrite Hres in Hnew.
    injection Hnew as <-.
    exists (evolve this c (info_parameters c)), c.
    split; [exact Hobj |]. split; [reflexivity |]. split; [reflexivity |].
    now rewrite (Hlog _ _ _ Hobj).
  - rewrite (try_reconnect_raise w self this e Hself Hc) in Hnew.
    cbn in Hnew. destruct (absorbed e); discriminate Hnew.
Qed.

Lemma try_reconnect_attempts_witness :
  log (try_reconnect 0%nat
         (world (fun _ _ => Ok (conn 1 "PostgreSQL 13.0")) [session_11_9])).2
  = [EvConnect (ConnKwargs {[ "dbname"%string := "postgres"%string ]})].
Proof.
  exact (proj1 (try_reconnect_attempts
                  (world (fun _ _ => Ok (conn 1 "PostgreSQL 13.0")) [session_11_9])
                  0%nat session_11_9 eq_refl)).
Defined.

(** ** More on the database counters *)

Lemma int_of_number_bounds (q : Q) :
  ((0 <= q)%Q -> 0 <= int_of_number q /\ (inject_Z (int_of_number q) <= q)%Q)
  /\ ((q <= 0)%Q -> int_of_number q <= 0 /\ (q <= inject_Z (int_of_number q))%Q)
  /\ (q - 1 < inject_Z (int_of_number q))%Q
  /\ (inject_Z (int_of_number q) < q + 1)%Q.
Proof.
  assert (Hfl := Qfloor_le q). assert (Hlf := Qlt_floor q).
  assert (Hce := Qle_ceiling q). assert (Hcl := Qceiling_lt q).
  rewrite inject_Z_plus in Hlf. unfold Z.sub in Hcl.
  rewrite inject_Z_plus, inject_Z_opp in Hcl.
  change (inject_Z 1) with 1%Q in *.
  assert (Hpos : (0 <= q)%Q ->
            0 <= int_of_number q /\ (inject_Z (int_of_number q) <= q)%Q).
  { intros H0. rewrite (int_of_number_nonneg q H0). split; [| exact Hfl].
    change 0 with (Qfloor 0). now apply Qfloor_resp_le. }
  assert (Hneg : (q <= 0)%Q ->
            int_of_number q <= 0 /\ (q <= inject_Z (int_of_number q))%Q).
  { intros H0. rewrite (int_of_number_nonpos q H0). split; [| exact Hce].
    change 0 with (Qceiling 0). now apply Qceiling_resp_le. }
  split; [exact Hpos |]. split; [exact Hneg |].
  destruct (Qlt_le_dec q 0) as [Hlt | Hge].
  - apply Qlt_le_weak in Hlt. rewrite (int_of_number_nonpos q Hlt).
    split; lra.
  - rewrite (int_of_number_nonneg q Hge). split; lra.
Qed.

(** X15. Reading the database counters fails only when the query fails,
    and then with the query's own exception; otherwise it returns the four
    counters of the row fetched, unchanged, with some rates, whatever the
    previous snapshot. *)
Theorem pg_get_db_info_fails_with_query
    (fetchone : DbInfoParams -> Result DbInfoRow)
    (prev : option DbInfoDict) (using_rds skip_sizes : bool) :
  match fetchone (bound_params prev using_rds skip_sizes) with
  | Ok row =>
      exists rate growth,
        pg_get_db_info fetchone prev using_rds skip_sizes
        = Ok (snapshot row rate growth)
  | Raise e => pg_get_db_info fetchone prev using_rds skip_sizes = Raise e
  end.
Proof.
  unfold pg_get_db_info, bound_params.
  destruct prev as [p |].
  - destruct (fetchone _) as [row | e]; [| reflexivity]. cbn [rbind].
    unfold truediv.
    destruct (Qeq_bool (float_sub (row_timestamp row) (timestamp p)) 0);
      eexists _, _; reflexivity.
  - destruct (fetchone _) as [row | e]; [| reflexivity].
    eexists _, _; reflexivity.
Qed.

Lemma pg_get_db_info_fails_with_query_witness :
  pg_get_db_info (fun _ => Raise (PsyError OperationalError starting_up))
    (Some (snapshot (row_at 10 100 0) 0 0%Q)) false false
  = Raise (PsyError OperationalError starting_up).
Proof.
  exact (pg_get_db_info_fails_with_query
           (fun _ => Raise (PsyError OperationalError starting_up))
           (Some (snapshot (row_at 10 100 0) 0 0%Q)) false false).
Defined.

(** *** The accuracy of the float quotient *)

Lemma round_half_even_error (y : Q) :
  (Qabs (inject_Z (round_half_even y) - y) <= 1 # 2)%Q.
Proof.
  assert (Hfl := Qfloor_le y). assert (Hlf := Qlt_floor y).
  rewrite inject_Z_plus in Hlf. change (inject_Z 1) with 1%Q in Hlf.
  apply Qabs_Qle_condition.
  destruct (round_half_even_cases y) as [[-> H] | [-> H]].
  - split; lra.
  - rewrite inject_Z_plus. change (inject_Z 1) with 1%Q. split; lra.
Qed.

Lemma round53_error (x : Q) :
  (Qabs (round53 x - x) <= Qabs x * unit_roundoff)%Q.
Proof.
  destruct (Qeq_dec x 0) as [Hx | Hx].
  - rewrite (round53_zero x Hx), Hx. vm_compute. discriminate.
  - unfold round53.
    destruct (Qeq_bool x 0) eqn:E; [now apply Qeq_bool_eq in E |]. clear E.
    set (e := binade x - 52).
    set (m := round_half_even _).
    assert (Hp : (0 < 2 ^ e)%Q) by apply two_power_pos.
    assert (Hinv : (2 ^ (- e) * 2 ^ e == 1)%Q).
    { rewrite <- Qpower_plus by discriminate.
      replace (- e + e) with 0 by lia. reflexivity. }
    assert (Hm := round_half_even_error (x * 2 ^ (- e))). fold m in Hm.
    assert (Heq : (inject_Z m * 2 ^ e - x
                   == (inject_Z m - x * 2 ^ (- e)) * 2 ^ e)%Q).
    { transitivity (inject_Z m * 2 ^ e - x * (2 ^ (- e) * 2 ^ e))%Q.
      - rewrite Hinv. ring.
      - ring. }
    rewrite Heq, Qabs_Qmult, (Qabs_pos (2 ^ e)) by now apply Qlt_le_weak.
    assert (Hb := binade_le x Hx).
    assert (Hs : (2 ^ e == 2 ^ binade x * (1 # 4503599627370496))%Q).
    { unfold e. unfold Z.sub. rewrite Qpower_plus by discriminate.
      apply Qmult_comp; [reflexivity |]. vm_compute. reflexivity. }
    rewrite Hs.
    assert (Hb0 : (0 < 2 ^ binade x)%Q) by apply two_power_pos.
    set (A := Qabs (inject_Z m - x * 2 ^ (- e))) in *.
    set (B := (2 ^ binade x)%Q) in *.
    set (C := Qabs x) in *.
    assert (HA : (0 <= A)%Q) by apply Qabs_nonneg.
    unfold unit_roundoff.
    assert (H1 : (A * B <= (1 # 2) * B)%Q)
      by (apply Qmult_le_compat_r; [assumption | now apply Qlt_le_weak]).
    lra.
Qed.

Lemma round53_relative (x : Q) :
  exists d : Q,
    (round53 x == x * (1 + d))%Q
    /\ (- unit_roundoff <= d)%Q /\ (d <= unit_roundoff)%Q.
Proof.
  destruct (Qeq_dec x 0) as [Hx | Hx].
  - exists 0%Q. rewrite (round53_zero x Hx), Hx.
    split; [ring | split; vm_compute; discriminate].
  - exists ((round53 x - x) / x)%Q. split; [field; exact Hx |].
    apply Qabs_Qle_condition.
    unfold Qdiv. rewrite Qabs_Qmult, Qabs_Qinv.
    assert (Hpos : (0 < Qabs x)%Q).
    { destruct (Qle_lt_or_eq _ _ (Qabs_nonneg x)) as [H | H]; [exact H |].
      exfalso. apply Hx. 
      destruct (Qabs_Qle_condition x 0) as [Hc _].
      destruct Hc as [H1 H2]; [rewrite <- H; apply Qle_refl |].
      apply Qle_antisym; [exact H2 | exact H1]. }
    apply Qle_shift_div_r; [exact Hpos |].
    rewrite Qmult_comm. apply round53_error.
Qed.

(** Three roundings: of the numerator, of the denominator and of the
    quotient. *)
Lemma factor_bound (u d1 d2 d3 k : Q) :
  (0 <= u)%Q -> (u <= 1 # 5)%Q ->
  (- u <= d1)%Q -> (d1 <= u)%Q ->
  (- u <= d2)%Q -> (d2 <= u)%Q ->
  (- u <= d3)%Q -> (d3 <= u)%Q ->
  (k * (1 + d2) == (1 + d1) * (1 + d3))%Q ->
  (- (4 * u) <= k - 1)%Q /\ (k - 1 <= 4 * u)%Q.
Proof.
  intros Hu0 Hu H1l H1u H2l H2u H3l H3u Hk.
  assert (Hhi : ((1 + d1) * (1 + d3) <= (1 + u) * (1 + u))%Q) by nra.
  assert (Hlo : ((1 - u) * (1 - u) <= (1 + d1) * (1 + d3))%Q) by nra.
  assert (Hd : (0 < 1 + d2)%Q) by lra.
  split.
  - apply Qnot_lt_le. intros Hc.
    assert (H : (k * (1 + d2) <= (1 - 4 * u) * (1 + d2))%Q) by nra.
    assert (H' : ((1 - 4 * u) * (1 + d2) <= (1 - 4 * u) * (1 + u))%Q) by nra.
    nra.
  - apply Qnot_lt_le. intros Hc.
    assert (H : ((1 + 4 * u) * (1 + d2) <= k * (1 + d2))%Q) by nra.
    assert (H' : ((1 + 4 * u) * (1 - u) <= (1 + 4 * u) * (1 + d2))%Q) by nra.
    nra.
Qed.

Lemma quotient_error (a b : Q) :
  ~ (b == 0)%Q ->
  (Qabs (round53 (round53 a / round53 b) - a / b)
   <= Qabs (a / b) * (4 * unit_roundoff))%Q.
Proof.
  intros Hb.
  destruct (round53_relative a) as (d1 & Ha & H1l & H1u).
  destruct (round53_relative b) as (d2 & Hb' & H2l & H2u).
  destruct (round53_relative (round53 a / round53 b)) as (d3 & Hq & H3l & H3u).
  assert (Hu : (unit_roundoff <= 1 # 5)%Q) by (vm_compute; discriminate).
  assert (Hu0 : (0 <= unit_roundoff)%Q) by (vm_compute; discriminate).
  assert (Hd : ~ (1 + d2 == 0)%Q) by (intros H; lra).
  set (k := ((1 + d1) * (1 + d3) / (1 + d2))%Q).
  assert (Hk : (k * (1 + d2) == (1 + d1) * (1 + d3))%Q)
    by (unfold k; field; exact Hd).
  assert (Heq : (round53 (round53 a / round53 b) - a / b
                 == a / b * (k - 1))%Q).
  { rewrite Hq, Ha, Hb'. unfold k. field. split; assumption. }
  rewrite Heq, Qabs_Qmult.
  rewrite !(Qmult_comm (Qabs (a / b))).
  apply Qmult_le_compat_r; [| apply Qabs_nonneg].
  apply Qabs_Qle_condition.
  destruct (factor_bound unit_roundoff d1 d2 d3 k) as [Hl Hh]; try assumption.
  split; lra.
Qed.

(** X16. With a previous snapshot of a different timestamp, tps never has
    the sign opposite to the exact rate, the transaction delta over the
    exact difference of the timestamps, and differs from it by less than
    one plus the rate's [2^-51] part, which bounds the three roundings of
    the float quotient. *)
Theorem tps_tracks_rate
    (fetchone : DbInfoParams -> Result DbInfoRow) (using_rds skip_sizes : bool)
    (prev : DbInfoDict) (row : DbInfoRow) :
  fetchone (bound_params (Some prev) using_rds skip_sizes) = Ok row ->
  ~ (row_timestamp row == timestamp prev)%Q ->
  let rate := (inject_Z (row_no_xact row - no_xact prev)
               / (row_timestamp row - timestamp prev))%Q in
  exists d,
    pg_get_db_info fetchone (Some prev) using_rds skip_sizes = Ok d
    /\ ((0 <= rate)%Q -> 0 <= tps d)
    /\ ((rate <= 0)%Q -> tps d <= 0)
    /\ (Qabs (inject_Z (tps d) - rate)
        < 1 + Qabs rate * (4 * unit_roundoff))%Q.
Proof.
  intros Hrow Hdiff rate.
  assert (Hnz : ~ (row_timestamp row - timestamp prev == 0)%Q)
    by (intros H; apply Hdiff, (proj2 (elapsed_zero _ _)), H).
  assert (Hnz' : ~ (float_sub (row_timestamp row) (timestamp prev) == 0)%Q)
    by now apply float_sub_nonzero.
  eexists. split.
  - unfold pg_get_db_info, bound_params in *. rewrite Hrow. cbn [rbind].
    rewrite !truediv_nonzero by assumption. reflexivity.
  - cbn [tps]. unfold float_of_int, float_sub.
    set (q := round53 (_ / _)).
    assert (Herr := quotient_error
                      (inject_Z (row_no_xact row - no_xact prev))
                      (row_timestamp row - timestamp prev) Hnz).
    fold rate q in Herr.
    destruct (int_of_number_bounds q) as (Hp & Hn & Hlo & Hhi).
    assert (Hu : (0 <= 4 * unit_roundoff)%Q) by (vm_compute; discriminate).
    assert (Hu1 : (4 * unit_roundoff <= 1)%Q) by (vm_compute; discriminate).
    set (u4 := (4 * unit_roundoff)%Q) in *.
    apply Qabs_diff_Qle_condition in Herr. destruct Herr as [Hql Hqu].
    split; [| split].
    + intros Hr. apply Hp.
      rewrite (Qabs_pos rate Hr) in Hql, Hqu. nra.
    + intros Hr. apply Hn.
      rewrite (Qabs_neg rate Hr) in Hql, Hqu. nra.
    + apply Qabs_diff_Qlt_condition.
      set (A := Qabs rate) in *. set (B := (A * u4)%Q) in *.
      split; lra.
Qed.

Lemma tps_tracks_rate_witness :
  exists d,
    pg_get_db_info (fun _ => Ok (row_at 12 95 4096))
      (Some (snapshot (row_at 10 100 0) 0 0%Q)) false false = Ok d
    /\ tps d <= 0.
Proof.
  destruct (tps_tracks_rate (fun _ => Ok (row_at 12 95 4096)) false false
              (snapshot (row_at 10 100 0) 0 0%Q) (row_at 12 95 4096) eq_refl)
    as (d & Hd & _ & Hneg & _).
  - vm_compute. discriminate.
  - exists d. split; [exact Hd |]. apply Hneg. vm_compute. discriminate.
Defined.

(** The float quotient is not the exact one.  One transaction over the
    float [0.1] gives ten per second, although the exact quotient is below
    ten; a count of [2^53 + 1] is rounded to a float before it is divided;
    a day's count over a day's float difference of epochs is one above the
    truncated exact quotient, 4194304. *)
Lemma float_quotient_samples :
  let tps_of prev row :=
    d <- pg_get_db_info (fun _ => Ok row) (Some prev) false false ;;
    Ok (tps d) in
  tps_of (snapshot (row_at 0 0 0) 0 0%Q) (row_at tenth 1 0) = Ok 10
  /\ int_of_number (1 / tenth) = 9
  /\ tps_of (snapshot (row_at 0 0 0) 0 0%Q) (row_at 1 (2 ^ 53 + 1) 0)
     = Ok (2 ^ 53)
  /\ tps_of (snapshot (row_at 1600000000 0 0) 0 0%Q)
            (row_at epoch_later 286890462001 0)
     = Ok 4194305
  /\ int_of_number (286890462001 / (epoch_later - 1600000000)) = 4194304.
Proof. vm_compute. repeat split. Qed.

(** ** The message of a fatal connection error *)

Lemma contains_tail (old : string) (a : ascii) (s : string) :
  contains old (String a s) = false -> contains old s = false.
Proof.
  cbn [contains]. destruct (startswith (String a s) old); [discriminate |].
  trivial.
Qed.

Lemma contains_prefix (old s : string) :
  contains old s = false -> strip_prefix old s = None.
Proof.
  destruct s as [| a s]; cbn [contains]; unfold startswith;
    destruct (strip_prefix old _); [discriminate | reflexivity
                                   | discriminate | reflexivity].
Qed.

Lemma str_replace_absent (old new s : string) (fuel : nat) :
  contains old s = false -> str_replace old new s fuel = s.
Proof.
  revert s. induction fuel as [| fuel IH]; intros s Hs; [reflexivity |].
  cbn [str_replace]. rewrite (contains_prefix old s Hs).
  destruct s as [| a s]; [reflexivity |].
  now rewrite (IH s (contains_tail old a s Hs)).
Qed.

Lemma replace_absent (old new s : string) :
  contains old s = false -> replace old new s = s.
Proof. apply str_replace_absent. Qed.

Lemma replace_leading (old new rest : string) :
  contains old rest = false -> replace old new (old +:+ rest) = new +:+ rest.
Proof.
  intros Hrest. unfold replace. cbn [str_replace].
  rewrite strip_prefix_app. now rewrite str_replace_absent.
Qed.

(** X17. When the connect sequence fails with an [OperationalError] other
    than an invalid password and [exit_on_failed] is set, the wrapper exits
    with [pg_activity: FATAL: ] followed by the cleaned message; a message
    without [FATAL:] is cleaned as it is, and a message that starts with
    its only [FATAL:] is cleaned without it, so that the label is not
    repeated. *)
Theorem fatal_label_once (clean_str : string -> string) (options : Options)
    (dsn : string) (password : option string) (service : option string)
    (min_dur : Q) (w : World) (msg : string) :
  (connect_once options dsn password service min_dur w).1
  = Raise (PsyError OperationalError msg) ->
  let out := pg_connect clean_str options dsn password service true min_dur w in
  (contains "FATAL:" msg = false ->
   out.1 = Raise (SystemExit ("pg_activity: FATAL: " +:+ clean_str msg)))
  /\ (forall rest, msg = "FATAL:" +:+ rest -> contains "FATAL:" rest = false ->
      out.1 = Raise (SystemExit ("pg_activity: FATAL: " +:+ clean_str rest))).
Proof.
  intros Hfail out. subst out. rewrite pg_connect_outcome. cbv zeta.
  rewrite Hfail. cbn [fst surfaced isinstance fatal]. split.
  - intros Habs. now rewrite replace_absent.
  - intros rest -> Habs.
    rewrite (replace_leading "FATAL:" EmptyString rest Habs).
    reflexivity.
Qed.

Lemma fatal_label_once_witness :
  (pg_connect drop_control tcp_options EmptyString None None true 0%Q
     (world (fun _ _ => Raise (PsyError OperationalError
                                 "FATAL:  role joe does not exist")) [])).1
  = Raise (SystemExit "pg_activity: FATAL:   role joe does not exist").
Proof.
  exact (proj2 (fatal_label_once drop_control tcp_options EmptyString None None
                  0%Q
                  (world (fun _ _ => Raise (PsyError OperationalError
                                              "FATAL:  role joe does not exist")) [])
                  "FATAL:  role joe does not exist" eq_refl)
               "  role joe does not exist"%string eq_refl eq_refl).
Defined.
